(** * safe-route travel-sheet downloader: a model of [main.py]

    The script enumerates the travel sheets of an account, resolves each
    to an optional attached document and downloads the documents, many
    requests being in flight at once on one asyncio event loop.

    The development follows the script function by function.  Python
    values are a small dynamically typed universe, [async def] functions
    are coroutines over a shared world (download directory and console),
    and [asyncio.gather] runs them under an arbitrary interleaving. *)

From Stdlib Require Import ZArith NArith List String Ascii Lia Bool
  DecimalString.
From stdpp Require Import base option list gmap.

Local Open Scope N_scope.

(** ** Strings and bytes

    A Python [str] is a sequence of Unicode code points, a [bytes]
    object a sequence of octets. *)

Abbreviation str := (list N) (only parsing).
Abbreviation bytes := (list N) (only parsing).

(** String literals of the script, all of them ASCII. *)
Definition ustr (s : string) : str :=
  map N_of_ascii (list_ascii_of_string s).

Definition QUOTE : N := 34.
Definition PERCENT : N := 37.
Definition NEWLINE : N := 10.
Definition UNDERSCORE : N := 95.
Definition DOT : N := 46.
Definition DASH : N := 45.
Definition REPLACEMENT : N := 65533.

Definition str_eqb (s t : str) : bool := bool_decide (s = t).

Fixpoint starts_with (p s : str) : bool :=
  match p, s with
  | [], _ => true
  | a :: p', b :: s' => (a =? b) && starts_with p' s'
  | _ :: _, [] => false
  end.

(** [sub in s] on strings. *)
Fixpoint contains (sub s : str) : bool :=
  starts_with sub s ||
  match s with
  | [] => false
  | _ :: s' => contains sub s'
  end.

(** ** The Unicode tables behind [\w] and [\d]

    [re] classifies a character of a [str] pattern with the Unicode
    database of the interpreter: [\w] is [str.isalnum] or an underscore,
    [\d] is a decimal digit.  The database is not part of the script and
    is a parameter of the model. *)

Record unicode_db := {
  isalnum : N -> bool;
  isdecimal : N -> bool
}.

Definition ascii_digit (c : N) : bool := (48 <=? c) && (c <=? 57).
Definition ascii_upper (c : N) : bool := (65 <=? c) && (c <=? 90).
Definition ascii_lower (c : N) : bool := (97 <=? c) && (c <=? 122).
Definition ascii_alnum (c : N) : bool :=
  ascii_digit c || ascii_upper c || ascii_lower c.

(** The class [[A-Za-z0-9_.-]]. *)
Definition ascii_filename_char (c : N) : bool :=
  ascii_alnum c || (c =? UNDERSCORE) || (c =? DOT) || (c =? DASH).

(** On ASCII every Unicode database agrees with the ASCII classes. *)
Definition ascii_faithful (db : unicode_db) : Prop :=
  forall c, c < 128 ->
    isalnum db c = ascii_alnum c /\ isdecimal db c = ascii_digit c.

(** An excerpt of the database for concrete runs: ASCII and the Russian
    alphabet (U+0410..U+044F, U+0401, U+0451, all of category Lu or Ll). *)
Definition russian_letter (c : N) : bool :=
  ((1040 <=? c) && (c <=? 1103)) || (c =? 1025) || (c =? 1105).

Definition ucd_excerpt : unicode_db :=
  {| isalnum := fun c => ascii_alnum c || russian_letter c;
     isdecimal := ascii_digit |}.

(** ** [urllib.parse.unquote]

    [unquote(s, encoding='utf-8')] returns [s] itself when it has no
    percent sign.  Otherwise every maximal run of ASCII characters is
    percent-decoded to bytes and the bytes are decoded as UTF-8 with
    [errors='replace']; the other characters are kept. *)

Definition hexval (c : N) : option N :=
  if ascii_digit c then Some (c - 48)
  else if (65 <=? c) && (c <=? 70) then Some (c - 55)
  else if (97 <=? c) && (c <=? 102) then Some (c - 87)
  else None.

Fixpoint unquote_to_bytes (s : bytes) : bytes :=
  match s with
  | [] => []
  | c :: rest =>
    if c =? PERCENT then
      match rest with
      | h :: l :: rest' =>
        match hexval h, hexval l with
        | Some a, Some b => (16 * a + b) :: unquote_to_bytes rest'
        | _, _ => c :: unquote_to_bytes rest
        end
      | _ => c :: unquote_to_bytes rest
      end
    else c :: unquote_to_bytes rest
  end.

Definition continuation (b : N) : bool := (128 <=? b) && (b <? 192).

(** Second byte of a three-byte and of a four-byte sequence: overlong
    forms, surrogates and code points above U+10FFFF are refused. *)
Definition second_of_3 (b0 b1 : N) : bool :=
  continuation b1 &&
  negb (if b1 <? 160 then b0 =? 224 else b0 =? 237).
Definition second_of_4 (b0 b1 : N) : bool :=
  continuation b1 &&
  negb (if b1 <? 144 then b0 =? 240 else b0 =? 244).

(** [bytes.decode('utf-8', 'replace')]: each malformed sequence becomes
    one U+FFFD and decoding goes on after it. *)
Fixpoint utf8_decode (bs : bytes) : str :=
  match bs with
  | [] => []
  | b0 :: r0 =>
    if b0 <? 128 then b0 :: utf8_decode r0
    else if b0 <? 194 then REPLACEMENT :: utf8_decode r0
    else if b0 <? 224 then
      match r0 with
      | [] => [REPLACEMENT]
      | b1 :: r1 =>
        if continuation b1
        then ((b0 - 192) * 64 + (b1 - 128)) :: utf8_decode r1
        else REPLACEMENT :: utf8_decode r0
      end
    else if b0 <? 240 then
      match r0 with
      | [] => [REPLACEMENT]
      | b1 :: r1 =>
        if second_of_3 b0 b1 then
          match r1 with
          | [] => [REPLACEMENT]
          | b2 :: r2 =>
            if continuation b2
            then ((b0 - 224) * 4096 + (b1 - 128) * 64 + (b2 - 128))
                   :: utf8_decode r2
            else REPLACEMENT :: utf8_decode r1
          end
        else REPLACEMENT :: utf8_decode r0
      end
    else if b0 <? 245 then
      match r0 with
      | [] => [REPLACEMENT]
      | b1 :: r1 =>
        if second_of_4 b0 b1 then
          match r1 with
          | [] => [REPLACEMENT]
          | b2 :: r2 =>
            if continuation b2 then
              match r2 with
              | [] => [REPLACEMENT]
              | b3 :: r3 =>
                if continuation b3
                then ((b0 - 240) * 262144 + (b1 - 128) * 4096
                      + (b2 - 128) * 64 + (b3 - 128)) :: utf8_decode r3
                else REPLACEMENT :: utf8_decode r2
              end
            else REPLACEMENT :: utf8_decode r1
          end
        else REPLACEMENT :: utf8_decode r0
      end
    else REPLACEMENT :: utf8_decode r0
  end.

(** Maximal runs of ASCII and of non-ASCII characters, in order. *)
Fixpoint ascii_runs (s : str) : list (bool * str) :=
  match s with
  | [] => []
  | c :: s' =>
    let a := c <? 128 in
    match ascii_runs s' with
    | (b, run) :: rest =>
      if Bool.eqb a b then (a, c :: run) :: rest
      else (a, [c]) :: (b, run) :: rest
    | [] => [(a, [c])]
    end
  end.

Definition unquote (s : str) : str :=
  if existsb (N.eqb PERCENT) s then
    concat (map (fun r : bool * str =>
                   if fst r then utf8_decode (unquote_to_bytes (snd r))
                   else snd r)
                (ascii_runs s))
  else s.

(** ** The three regular expressions of the script *)

(** The first pattern is [filename=Q(.+)Q], written here with Q for the
    double quote; this is its literal prefix. *)
Definition filename_prefix : str := ustr "filename=" ++ [QUOTE].

(** Longest prefix without a newline: what [.] can run over. *)
Fixpoint line_of (s : str) : str :=
  match s with
  | [] => []
  | c :: s' => if c =? NEWLINE then [] else c :: line_of s'
  end.

(** Index of the last quote of [s] that has a character before it,
    [pos] being the index of the head of [s]. *)
Fixpoint last_quote (pos : nat) (s : str) : option nat :=
  match s with
  | [] => None
  | c :: s' =>
    match last_quote (S pos) s' with
    | Some j => Some j
    | None =>
      if (c =? QUOTE) && negb (Nat.eqb pos 0) then Some pos else None
    end
  end.

(** A match of [filename=Q(.+)Q] at the head of [s]: the group and the
    length of the whole match.  [.+] is greedy, so the group runs to the
    last quote of the line. *)
Definition match_filename (s : str) : option (str * nat) :=
  if starts_with filename_prefix s then
    let line := line_of (drop (length filename_prefix) s) in
    match last_quote 0 line with
    | Some j => Some (take j line, (length filename_prefix + j + 1)%nat)
    | None => None
    end
  else None.

(** [re.findall] of that pattern on [s]: the groups of the successive
    matches, leftmost first, a match starting where the last one ended;
    [skip] characters of [s] belong to the last match. *)
Fixpoint findall_from (skip : nat) (s : str) : list str :=
  match s with
  | [] => []
  | _ :: s' =>
    match skip with
    | S k => findall_from k s'
    | O =>
      match match_filename s with
      | Some (group, len) => group :: findall_from (len - 1) s'
      | None => findall_from 0 s'
      end
    end
  end.

Definition findall_filename (s : str) : list str := findall_from 0 s.

(** A character that [[^\w\d.-]] does not match. *)
Definition kept (db : unicode_db) (c : N) : bool :=
  (isalnum db c || (c =? UNDERSCORE)) || isdecimal db c
  || (c =? DOT) || (c =? DASH).

(** [re.sub(r'[^\w\d.-]', '_', s)]. *)
Definition sanitize (db : unicode_db) (s : str) : str :=
  map (fun c => if kept db c then c else UNDERSCORE) s.

(** The alternative [Q$] of the last pattern [^Q|Q$]: a quote that ends the
    string, or that stands before its final newline. *)
Fixpoint strip_trailing_quote (s : str) : str :=
  match s with
  | [] => []
  | c :: s' =>
    if (c =? QUOTE) &&
       (match s' with
        | [] => true
        | [d] => d =? NEWLINE
        | _ => false
        end)
    then s'
    else c :: strip_trailing_quote s'
  end.

(** [re.sub] of [^Q|Q$] by the empty string. *)
Definition strip_quotes (s : str) : str :=
  match s with
  | c :: s' =>
    if c =? QUOTE then strip_trailing_quote s' else strip_trailing_quote s
  | [] => []
  end.

(** The filename of a [Content-Disposition] value, as the body of
    [get_filename_from_response_headers] computes it (lines 42-48);
    [None] is Python's [None]. *)
Definition filename_of_disposition (db : unicode_db)
    (content_disposition : str) : option str :=
  if negb (Nat.eqb (length content_disposition) 0)
     && contains (ustr "filename") content_disposition
  then
    match findall_filename content_disposition with
    | group :: _ => Some (strip_quotes (sanitize db (unquote group)))
    | [] => None
    end
  else None.

(** Header names compare without regard to case. *)
Definition lower (c : N) : N := if ascii_upper c then c + 32 else c.

Fixpoint headers_get (headers : list (str * str)) (name : str)
    : option str :=
  match headers with
  | [] => None
  | (k, v) :: rest =>
    if str_eqb (map lower k) (map lower name) then Some v
    else headers_get rest name
  end.

(** ** Python values

    The values that travel through the script are decoded JSON: [None],
    booleans, integers, strings, lists and dictionaries with string
    keys.  Floating-point numbers are left out of the model. *)

#[warnings="-register-all"] Inductive pyval : Type :=
| PNone
| PBool (b : bool)
| PInt (n : Z)
| PStr (s : str)
| PList (l : list pyval)
| PDict (d : list (str * pyval)).

Inductive exn : Type :=
| KeyError
| IndexError
| TypeError
| AttributeError
| UnboundLocalError
| RecursionError
| ContentTypeError
| JSONDecodeError
| UnicodeDecodeError
| OSError.

(** The outcome of an expression or of a call: a value or a raised
    exception. *)
Inductive result (A : Type) : Type :=
| Ok (a : A)
| Err (e : exn).
Arguments Ok {A} a.
Arguments Err {A} e.

Definition result_bind {A B} (r : result A) (f : A -> result B)
    : result B :=
  match r with
  | Ok a => f a
  | Err e => Err e
  end.

(** [x is None]. *)
Definition is_none (v : pyval) : bool :=
  match v with
  | PNone => true
  | _ => false
  end.

(** Truth value of [v], as [if v:] and a comprehension filter test it. *)
Definition truthy (v : pyval) : bool :=
  match v with
  | PNone => false
  | PBool b => b
  | PInt n => negb (n =? 0)%Z
  | PStr s => negb (Nat.eqb (length s) 0)
  | PList l => negb (Nat.eqb (length l) 0)
  | PDict d => negb (Nat.eqb (length d) 0)
  end.

Fixpoint dict_lookup (d : list (str * pyval)) (key : str)
    : option pyval :=
  match d with
  | [] => None
  | (k, v) :: rest => if str_eqb k key then Some v else dict_lookup rest key
  end.

(** [v[i]] for an integer [i]. *)
Definition getitem_int (v : pyval) (i : Z) : result pyval :=
  match v with
  | PList l =>
    let n := Z.of_nat (length l) in
    let j := if (i <? 0)%Z then (n + i)%Z else i in
    if ((0 <=? j) && (j <? n))%Z
    then match nth_error l (Z.to_nat j) with
         | Some x => Ok x
         | None => Err IndexError
         end
    else Err IndexError
  | PStr s =>
    let n := Z.of_nat (length s) in
    let j := if (i <? 0)%Z then (n + i)%Z else i in
    if ((0 <=? j) && (j <? n))%Z
    then match nth_error s (Z.to_nat j) with
         | Some c => Ok (PStr [c])
         | None => Err IndexError
         end
    else Err IndexError
  | PDict _ => Err KeyError
  | _ => Err TypeError
  end.

(** [v[key]] for a string [key]. *)
Definition getitem_str (v : pyval) (key : str) : result pyval :=
  match v with
  | PDict d =>
    match dict_lookup d key with
    | Some x => Ok x
    | None => Err KeyError
    end
  | _ => Err TypeError
  end.

(** [v.get(key)]: only dictionaries have the method. *)
Definition get_method (v : pyval) (key : str) : result pyval :=
  match v with
  | PDict d =>
    match dict_lookup d key with
    | Some x => Ok x
    | None => Ok PNone
    end
  | _ => Err AttributeError
  end.

(** [len(v)]. *)
Definition py_len (v : pyval) : result Z :=
  match v with
  | PList l => Ok (Z.of_nat (length l))
  | PStr s => Ok (Z.of_nat (length s))
  | PDict d => Ok (Z.of_nat (length d))
  | _ => Err TypeError
  end.

(** The items [for x in v] runs over. *)
Definition py_iter (v : pyval) : result (list pyval) :=
  match v with
  | PList l => Ok l
  | PStr s => Ok (map (fun c => PStr [c]) s)
  | PDict d => Ok (map (fun kv => PStr (fst kv)) d)
  | _ => Err TypeError
  end.

(** [a == b] on hashable values; [True] and [False] are the integers
    1 and 0. *)
Definition as_number (v : pyval) : option Z :=
  match v with
  | PBool b => Some (if b then 1 else 0)%Z
  | PInt n => Some n
  | _ => None
  end.

Definition py_eqb (a b : pyval) : bool :=
  match a, b with
  | PNone, PNone => true
  | PStr s, PStr t => str_eqb s t
  | _, _ =>
    match as_number a, as_number b with
    | Some m, Some n => (m =? n)%Z
    | _, _ => false
    end
  end.

Definition hashable (v : pyval) : bool :=
  match v with
  | PList _ | PDict _ => false
  | _ => true
  end.

(** The distinct elements of [l], the first of equal ones being the one
    a set keeps. *)
Fixpoint distinct (seen : list pyval) (l : list pyval) : list pyval :=
  match l with
  | [] => []
  | x :: l' =>
    if existsb (py_eqb x) seen then distinct seen l'
    else x :: distinct (x :: seen) l'
  end.

(** ** Decoding a body

    [bytes.decode('utf-8')] with [errors='strict'], the way
    [response.text()] decodes: the first malformed sequence raises
    [UnicodeDecodeError]. *)

Definition decoded (c : N) (rest : result str) : result str :=
  result_bind rest (fun s => Ok (c :: s)).

Fixpoint utf_8 (bs : bytes) : result str :=
  match bs with
  | [] => Ok []
  | b0 :: r0 =>
    if b0 <? 128 then decoded b0 (utf_8 r0)
    else if b0 <? 194 then Err UnicodeDecodeError
    else if b0 <? 224 then
      match r0 with
      | b1 :: r1 =>
        if continuation b1
        then decoded ((b0 - 192) * 64 + (b1 - 128)) (utf_8 r1)
        else Err UnicodeDecodeError
      | [] => Err UnicodeDecodeError
      end
    else if b0 <? 240 then
      match r0 with
      | b1 :: b2 :: r2 =>
        if second_of_3 b0 b1 && continuation b2
        then decoded ((b0 - 224) * 4096 + (b1 - 128) * 64 + (b2 - 128))
               (utf_8 r2)
        else Err UnicodeDecodeError
      | _ => Err UnicodeDecodeError
      end
    else if b0 <? 245 then
      match r0 with
      | b1 :: b2 :: b3 :: r3 =>
        if second_of_4 b0 b1 && continuation b2 && continuation b3
        then decoded ((b0 - 240) * 262144 + (b1 - 128) * 4096
                      + (b2 - 128) * 64 + (b3 - 128)) (utf_8 r3)
        else Err UnicodeDecodeError
      | _ => Err UnicodeDecodeError
      end
    else Err UnicodeDecodeError
  end.

(** ** The remote service and the local machine *)

(** The four endpoints; the argument is the value the script formats
    into the address. *)
Inductive url : Type :=
| claims_url (limit : Z)
| special_projects_url (claim_uuid : pyval)
| download_url (special_project_uuid : pyval)
| docstore_url (store_uuid : pyval).

(** What the client library hands back for a request.  [content] is the
    body as served, [charset] the codec that [response.get_encoding()]
    settles on for it, [json] what [response.json()] makes of the body,
    [final_url] and [history] describe the redirects that were
    followed. *)
Record response := {
  status : Z;
  headers : list (str * str);
  content : bytes;
  charset : bytes -> result str;
  json : result pyval;
  final_url : str;
  history : list (str * Z)
}.

(** What [response.text()] makes of the body: it is decoded with the
    codec of the response and [errors='strict'], so a body that is not
    valid in its charset raises [UnicodeDecodeError]. *)
Definition text (r : response) : result str := charset r (content r).

(** The lines the script prints, with the values they show. *)
Inductive message : Type :=
| MsgInfoRequestLog (cookies : list (str * str)) (status : Z)
    (headers : list (str * str)) (text : str) (url : str)
| MsgRedirect (url : str) (status : Z)
| MsgErrorLoading (status : Z)
| MsgAlreadyExists (filename : str)
| MsgSuccessfulDownloads (n total : nat) (number : Z)
| MsgSuccessfulRequests (n total : nat) (number : Z)
| MsgDocuments (n : nat) (number : Z)
| MsgReceivedAll (number : Z)
| MsgStart (number : Z)
| MsgFinish (number : Z).

(** What a run does that can be observed from outside. *)
Inductive event : Type :=
| Requested (u : url)
| Printed (m : message)
| MadeDirs
| Opened (filename : str)
| Written (filename : str) (chunk : bytes).

(** The state the coroutines share: the regular files of the directory
    [downloads] by name, whether the directory exists ([downloads] is
    never a file), and the events so far, oldest first. *)
Record world := {
  files : gmap (list N) (list N);
  downloads_dir : bool;
  trace : list event
}.

(** What the script takes from its surroundings: the service behind the
    session of the account, the cookie jar, the order in which a set
    built from the given distinct elements is iterated, the Unicode
    database, and the names under which the operating system refuses to
    create a file in [downloads] (a name that is too long, say), so that
    [open] raises [OSError]. *)
Record environment := {
  http_get : url -> response;
  filter_cookies : url -> list (str * str);
  set_order : list pyval -> list pyval;
  ucd : unicode_db;
  open_refused : str -> bool
}.

(** The world after some more events. *)
Definition logged (w : world) (es : list event) : world :=
  {| files := files w; downloads_dir := downloads_dir w;
     trace := trace w ++ es |}.

(** [os.makedirs('downloads', exist_ok=True)]. *)
Definition made_dirs (w : world) : world :=
  {| files := files w; downloads_dir := true;
     trace := trace w ++ [MadeDirs] |}.

(** [open(save_path, 'wb')], when it is not refused, creates the file or
    empties it. *)
Definition created (filename : str) (w : world) : world :=
  {| files := <[filename := []]> (files w);
     downloads_dir := downloads_dir w;
     trace := trace w ++ [Opened filename] |}.

(** [f.write(chunk)] on the file opened under [filename]. *)
Definition appended (filename : str) (chunk : bytes) (w : world) : world :=
  {| files := alter (fun old => old ++ chunk) filename (files w);
     downloads_dir := downloads_dir w;
     trace := trace w ++ [Written filename chunk] |}.

(** [os.path.exists] of a name joined to [downloads]: a file of the
    directory, or the directory itself and its parent. *)
Definition path_exists (w : world) (filename : str) : bool :=
  bool_decide (is_Some (files w !! filename))
  || str_eqb filename [DOT] || str_eqb filename [DOT; DOT].

(** ** Coroutines

    An [async def] body is a tree: it returns, raises, runs synchronous
    code on the world ([Effect f k]: the world [w] becomes [f w] and the
    body goes on as [k w]), or reaches an [await] where the event loop
    may run other tasks before the body goes on. *)
Inductive coro (R : Type) : Type :=
| Return (r : R)
| Raise (e : exn)
| Effect (f : world -> world) (k : world -> coro R)
| Await (k : coro R).
Arguments Return {R} r.
Arguments Raise {R} e.
Arguments Effect {R} f k.
Arguments Await {R} k.

Fixpoint bind {A B} (c : coro A) (f : A -> coro B) : coro B :=
  match c with
  | Return a => f a
  | Raise e => Raise e
  | Effect g k => Effect g (fun w => bind (k w) f)
  | Await k => Await (bind k f)
  end.

Declare Scope coro_scope.
Delimit Scope coro_scope with coro.
Notation "'let*' x := c 'in' k" := (bind c (fun x => k))
  (at level 10, x pattern, c at level 100, k at level 200) : coro_scope.
Notation "c ;;; k" := (bind c (fun _ => k))
  (at level 100, k at level 200, right associativity) : coro_scope.
Local Open Scope coro_scope.

Definition effect (f : world -> world) : coro unit :=
  Effect f (fun _ => Return tt).

Definition inspect {A} (g : world -> A) : coro A :=
  Effect (fun w => w) (fun w => Return (g w)).

Definition suspend : coro unit := Await (Return tt).

Definition lift {A} (r : result A) : coro A :=
  match r with
  | Ok a => Return a
  | Err e => Raise e
  end.

(** [try: c except Exception: h]. *)
Fixpoint try_except {A} (c : coro A) (h : exn -> coro A) : coro A :=
  match c with
  | Return a => Return a
  | Raise e => h e
  | Effect g k => Effect g (fun w => try_except (k w) h)
  | Await k => Await (try_except k h)
  end.

(** A coroutine that is the only task of the loop, run to its end. *)
Fixpoint run {R} (c : coro R) (w : world) : world * result R :=
  match c with
  | Return r => (w, Ok r)
  | Raise e => (w, Err e)
  | Effect f k => run (k w) (f w)
  | Await k => run k w
  end.

(** A task given the processor: it runs to its next [await]. *)
Fixpoint resume {R} (c : coro R) (w : world) : world * coro R :=
  match c with
  | Effect f k => resume (k w) (f w)
  | Await k => (w, k)
  | _ => (w, c)
  end.

(** ** [asyncio.gather]

    The tasks advance one at a time, the schedule naming the task that
    runs next; when the schedule is used up the tasks still pending run
    to their end in order.  The results come in the order of the tasks;
    the first exception is raised to the caller. *)
Inductive gathered (R : Type) : Type :=
| AllDone (rs : list R)
| Failed (e : exn)
| Pending.
Arguments AllDone {R} rs.
Arguments Failed {R} e.
Arguments Pending {R}.

Fixpoint poll {R} (tasks : list (coro R)) : gathered R :=
  match tasks with
  | [] => AllDone []
  | Raise e :: _ => Failed e
  | Return r :: ts =>
    match poll ts with
    | AllDone rs => AllDone (r :: rs)
    | other => other
    end
  | _ :: ts =>
    match poll ts with
    | Failed e => Failed e
    | _ => Pending
    end
  end.

Fixpoint in_order {R} (tasks : list (coro R)) : coro (list R) :=
  match tasks with
  | [] => Return []
  | t :: ts =>
    let* r := t in
    let* rs := in_order ts in
    Return (r :: rs)
  end.

Fixpoint gather {R} (schedule : list nat) (tasks : list (coro R))
    : coro (list R) :=
  match poll tasks with
  | AllDone rs => Return rs
  | Failed e => Raise e
  | Pending =>
    match schedule with
    | i :: schedule' =>
      match tasks !! i with
      | Some t =>
        Effect (fun w => fst (resume t w))
               (fun w => gather schedule' (<[i := snd (resume t w)]> tasks))
      | None => gather schedule' tasks
      end
    | [] => in_order tasks
    end
  end.

(** ** The script *)

Section Script.

Variable env : environment.

Definition emit (e : event) : coro unit :=
  effect (fun w => logged w [e]).

Definition print (m : message) : coro unit := emit (Printed m).

(** [async with session.get(url) as response]: the request goes out and
    the task waits for the response. *)
Definition session_get (u : url) : coro response :=
  emit (Requested u) ;;;
  suspend ;;;
  Return (http_get env u).

(** A response in the hands of a task: [unread] is what is left on the
    stream [response.content]. *)
Record live_response := {
  resp : response;
  unread : bytes
}.

Definition arrive (r : response) : live_response :=
  {| resp := r; unread := content r |}.

(** [await response.json()] and [await response.text()] read the stream
    to its end before they decode the body. *)
Definition drained (r : live_response) : live_response :=
  {| resp := resp r; unread := [] |}.

Definition response_json (r : live_response)
    : coro (pyval * live_response) :=
  suspend ;;;
  let* v := lift (json (resp r)) in
  Return (v, drained r).

Definition response_text (r : live_response)
    : coro (str * live_response) :=
  suspend ;;;
  let* body := lift (text (resp r)) in
  Return (body, drained r).

(** [await response.content.read(n)]: the next [n] bytes, fewer at the
    end of the stream. *)
Definition content_read (n : nat) (r : live_response)
    : coro (bytes * live_response) :=
  suspend ;;;
  Return (take n (unread r), {| resp := resp r; unread := drop n (unread r) |}).

(** Lines 15-31.  The message shows the cookies, the status, the
    headers, the body text and the final address; a line follows for
    each redirect.  The message is built before anything is printed, so
    a body that does not decode ends the function with nothing
    printed. *)
Definition info_request_log (u : url) (r : live_response) : coro unit :=
  let cookies := filter_cookies env u in
  let* (body, r) := response_text r in
  print (MsgInfoRequestLog cookies (status (resp r)) (headers (resp r))
           body (final_url (resp r))) ;;;
  fold_right (fun redirect rest =>
                print (MsgRedirect (fst redirect) (snd redirect)) ;;; rest)
             (Return tt) (history (resp r)).

(** Lines 34-48.  The function falls off its end, returning [None],
    unless every test passes. *)
Definition get_filename_from_response_headers (store_uuid : pyval)
    : coro (option str) :=
  let* response := session_get (docstore_url store_uuid) in
  if (status response =? 200)%Z then
    match headers_get (headers response) (ustr "Content-Disposition") with
    | Some content_disposition =>
      Return (filename_of_disposition (ucd env) content_disposition)
    | None => Return None
    end
  else Return None.

Definition makedirs : coro unit := effect made_dirs.

Definition open_wb (filename : str) : coro unit :=
  if open_refused env filename then Raise OSError
  else effect (created filename).

Definition write (filename : str) (chunk : bytes) : coro unit :=
  effect (appended filename chunk).

(** Lines 69-73.  Each turn of the loop takes a chunk off the stream, so
    [rounds] above the length of the stream is never used up. *)
Fixpoint copy_chunks (rounds : nat) (r : live_response) (filename : str)
    : coro unit :=
  match rounds with
  | O => Return tt
  | S rounds' =>
    let* (chunk, r) := content_read 1024 r in
    if Nat.eqb (length chunk) 0 then Return tt
    else write filename chunk ;;; copy_chunks rounds' r filename
  end.

(** Lines 51-77. *)
Definition download_pdf (file_uuid : pyval) : coro pyval :=
  let u := download_url file_uuid in
  let* response := session_get u in
  let response := arrive response in
  if (status (resp response) =? 200)%Z then
    let* (json, response) := response_json response in
    let* store_uuid := lift (getitem_str json (ustr "store_uuid")) in
    let* filename := get_filename_from_response_headers store_uuid in
    match filename with
    | Some filename =>
      makedirs ;;;
      let* found := inspect (fun w => path_exists w filename) in
      if found then
        print (MsgAlreadyExists filename) ;;;
        Return PNone
      else
        open_wb filename ;;;
        copy_chunks (S (length (unread response))) response filename ;;;
        Return (PBool true)
    | None => Return PNone
    end
  else
    print (MsgErrorLoading (status (resp response))) ;;;
    info_request_log u response ;;;
    Return PNone.

(** Lines 80-90.  One task per argument, in the order of the list. *)
Definition async_requester {A R} (schedule : list nat) (arg_list : list A)
    (callback_func : A -> coro R) : coro (list R) :=
  let tasks :=
    fold_left (fun tasks arg => tasks ++ [callback_func arg]) arg_list [] in
  suspend ;;;
  gather schedule tasks.

(** Lines 93-103. *)
Definition download_all_files (schedule : list nat)
    (file_uuids : list pyval) (number : Z) : coro unit :=
  let* responses := async_requester schedule file_uuids download_pdf in
  let successful_downloads := filter (fun sd => truthy sd = true) responses in
  print (MsgSuccessfulDownloads (length successful_downloads)
           (length file_uuids) number).

(** Lines 106-119. *)
Definition get_special_project_file_uuid (claim_uuid : pyval)
    : coro pyval :=
  let* response := session_get (special_projects_url claim_uuid) in
  let* (json, _) := response_json (arrive response) in
  if truthy json then
    try_except
      (let* first := lift (getitem_int json 0) in
       lift (get_method first (ustr "special_project_uuid")))
      (fun _ => Return PNone)
  else Return PNone.

(** [list(set(responses))]: a value that cannot be hashed stops it. *)
Definition list_of_set (l : list pyval) : result (list pyval) :=
  if forallb hashable l then Ok (set_order env (distinct [] l))
  else Err TypeError.

(** Lines 122-135. *)
Definition get_all_file_uuids (schedule : list nat)
    (claim_uuids : list pyval) (number : Z) : coro (list pyval) :=
  let* responses :=
    async_requester schedule claim_uuids get_special_project_file_uuid in
  print (MsgSuccessfulRequests (length responses) (length claim_uuids)
           number) ;;;
  let* file_uuids := lift (list_of_set responses) in
  let* last := lift (getitem_int (PList file_uuids) (-1)) in
  let file_uuids :=
    if is_none last then removelast file_uuids else file_uuids in
  print (MsgDocuments (length file_uuids) number) ;;;
  Return file_uuids.

(** Lines 153-157: the [uuid] of each record that has one. *)
Fixpoint collect_uuids (travel_sheets uuids : list pyval)
    : result (list pyval) :=
  match travel_sheets with
  | [] => Ok uuids
  | travel_sheet :: rest =>
    match get_method travel_sheet (ustr "uuid") with
    | Ok uuid =>
      collect_uuids rest (if is_none uuid then uuids else uuids ++ [uuid])
    | Err e => Err e
    end
  end.

(** Lines 138-159.  [depth] is the number of nested calls the
    interpreter still allows.  The [except] clause handles
    [ContentTypeError] only and leaves [json] unbound; the recursive
    call is written [get_all_travel_sheets_uuids(session, limit)], so
    the doubled limit arrives as [number] and [limit] takes its default
    value again. *)
Fixpoint get_all_travel_sheets_uuids (depth : nat) (number limit : Z)
    : coro (list pyval) :=
  match depth with
  | O => Raise RecursionError
  | S depth' =>
    let u := claims_url limit in
    let* response := session_get u in
    let response := arrive response in
    let* json :=
      try_except
        (let* (v, _) := response_json response in Return (Some v))
        (fun e =>
           match e with
           | ContentTypeError =>
             info_request_log u response ;;; Return None
           | _ => Raise e
           end) in
    let* travel_sheets :=
      match json with
      | Some json => lift (getitem_str json (ustr "data"))
      | None => Raise UnboundLocalError
      end in
    let* n := lift (py_len travel_sheets) in
    if (n =? limit)%Z then
      let limit := (limit * 2)%Z in
      get_all_travel_sheets_uuids depth' limit 1000
    else
      let* items := lift (py_iter travel_sheets) in
      let* uuids := lift (collect_uuids items []) in
      print (MsgReceivedAll number) ;;;
      Return uuids
  end.

(** Lines 162-171, for the session of one account. *)
Definition start_parser (depth : nat) (schedule1 schedule2 : list nat)
    (number : Z) : coro unit :=
  print (MsgStart number) ;;;
  let* uuids := get_all_travel_sheets_uuids depth number 1000 in
  let* file_uuids := get_all_file_uuids schedule1 uuids number in
  download_all_files schedule2 file_uuids number ;;;
  print (MsgFinish number).

End Script.

(** ** Notions the statements use *)

(** A world in which nothing has happened yet. *)
Definition fresh : world :=
  {| files := ∅; downloads_dir := false; trace := [] |}.

(** The events that change a file. *)
Definition is_write (e : event) : bool :=
  match e with
  | Opened _ | Written _ _ => true
  | _ => false
  end.

Definition write_events (t : list event) : list event :=
  filter (fun e => is_write e = true) t.

(** The addresses requested from the listing endpoint, oldest first. *)
Fixpoint listing_limits (t : list event) : list Z :=
  match t with
  | [] => []
  | Requested (claims_url limit) :: t' => limit :: listing_limits t'
  | _ :: t' => listing_limits t'
  end.

(** A coroutine that cannot raise, and a value it can return. *)
Fixpoint never_raises {R} (c : coro R) : Prop :=
  match c with
  | Return _ => True
  | Raise _ => False
  | Effect _ k => forall w, never_raises (k w)
  | Await k => never_raises k
  end.

Fixpoint may_return {R} (c : coro R) (r : R) : Prop :=
  match c with
  | Return r' => r' = r
  | Raise _ => False
  | Effect _ k => exists w, may_return (k w) r
  | Await k => may_return k r
  end.

(** The fan-out as the specification words it: one invocation per
    input, all of them at work on the shared world, one at a time and in
    any order, each from one [await] to its next.  When every invocation
    has returned, the results are theirs, in the order of the inputs;
    an invocation that has raised makes the fan-out fail with its
    exception. *)
Inductive interleaving {R} :
    list (coro R) -> world -> world -> result (list R) -> Prop :=
| all_returned (rs : list R) (w : world) :
    interleaving (map Return rs) w w (Ok rs)
| one_raised (tasks : list (coro R)) (i : nat) (e : exn) (w : world) :
    tasks !! i = Some (Raise e) ->
    interleaving tasks w w (Err e)
| one_advances (tasks : list (coro R)) (i : nat) (t : coro R)
    (w w' : world) (out : result (list R)) :
    tasks !! i = Some t ->
    interleaving (<[i := snd (resume t w)]> tasks) (fst (resume t w)) w'
      out ->
    interleaving tasks w w' out.

(** Rely and guarantee for tasks that share the world.
    [seg G Q E w c]: the task [c], holding the processor in world [w],
    changes the world by steps of [G] only, also after each [await],
    where the other tasks may have taken steps of [G]; [Q] holds of its
    result and of the world when it returns, [E] of the exception when
    it raises. *)
Fixpoint seg {R} (G : world -> world -> Prop) (Q : R -> world -> Prop)
    (E : exn -> Prop) (w : world) (c : coro R) : Prop :=
  match c with
  | Return r => Q r w
  | Raise e => E e
  | Effect f k => G w (f w) /\ seg G Q E (f w) (k w)
  | Await k => forall w', G w w' -> seg G Q E w' k
  end.

(** The same for a task that waits in world [w] for its turn. *)
Definition safe {R} (G : world -> world -> Prop) (Q : R -> world -> Prop)
    (E : exn -> Prop) (w : world) (c : coro R) : Prop :=
  forall w', G w w' -> seg G Q E w' c.

(** No file is changed and no write is recorded. *)
Definition untouched (w w' : world) : Prop :=
  files w' = files w /\ write_events (trace w') = write_events (trace w).

(** Every file is still there with its content. *)
Definition preserved (w w' : world) : Prop :=
  files w ⊆ files w'.

(** The name a storage resource gives to its file, as
    [get_filename_from_response_headers] reads it off the response. *)
Definition stored_name (env : environment) (store_uuid : pyval)
    : option str :=
  let meta := http_get env (docstore_url store_uuid) in
  if (status meta =? 200)%Z then
    match headers_get (headers meta) (ustr "Content-Disposition") with
    | Some content_disposition =>
      filename_of_disposition (ucd env) content_disposition
    | None => None
    end
  else None.

(** The name under which [download_pdf] will look for the file of an
    identifier, read off the two responses it asks for. *)
Definition resolved_name (env : environment) (file_uuid : pyval)
    : option str :=
  let r := http_get env (download_url file_uuid) in
  if (status r =? 200)%Z then
    match result_bind (json r)
            (fun body => getitem_str body (ustr "store_uuid")) with
    | Ok store_uuid => stored_name env store_uuid
    | Err _ => None
    end
  else None.

(** The iteration order of a set lists its elements, each once. *)
Definition order_faithful (env : environment) : Prop :=
  forall l, set_order env l ≡ₚ l.

(** The sanitising step as the specification words it: every character
    outside [[A-Za-z0-9_.-]] becomes an underscore. *)
Definition spec_sanitize (s : str) : str :=
  map (fun c => if ascii_filename_char c then c else UNDERSCORE) s.

Definition spec_filename_of_disposition (content_disposition : str)
    : option str :=
  match findall_filename content_disposition with
  | group :: _ => Some (strip_quotes (spec_sanitize (unquote group)))
  | [] => None
  end.

(** The lines [info_request_log] prints for the redirects. *)
Definition redirect_lines (r : response) : list event :=
  map (fun h => Printed (MsgRedirect (fst h) (snd h))) (history r).

(** Each task of a fan-out is safe for the postcondition of its
    argument. *)
Definition all_safe {A R} (G : world -> world -> Prop)
    (Q : A -> R -> world -> Prop) (E : exn -> Prop) (w : world)
    (args : list A) (tasks : list (coro R)) : Prop :=
  Forall2 (fun a t => safe G (Q a) E w t) args tasks.

(** The description of an identifier is served but cannot be used: the
    body is not JSON or has no [store_uuid].  [download_pdf] raises on
    such an identifier. *)
Definition description_fails (env : environment) (file_uuid : pyval)
    : Prop :=
  let r := http_get env (download_url file_uuid) in
  (status r =? 200)%Z = true /\
  exists e,
    result_bind (json r) (fun body => getitem_str body (ustr "store_uuid"))
      = Err e.

(** The description of an identifier is refused and its diagnostics
    cannot be printed: the status is not 200 and the body does not
    decode.  [download_pdf] raises on such an identifier, inside
    [info_request_log]. *)
Definition diagnostics_fail (env : environment) (file_uuid : pyval)
    : Prop :=
  let r := http_get env (download_url file_uuid) in
  (status r =? 200)%Z = false /\ exists e, text r = Err e.

(** The file of an identifier is not there in [w] and the operating
    system refuses its name. *)
Definition open_fails (env : environment) (w : world) (file_uuid : pyval)
    : Prop :=
  exists filename,
    resolved_name env file_uuid = Some filename /\
    path_exists w filename = false /\
    open_refused env filename = true.

(** The three ways in which the download of an identifier raises, in a
    stage that starts in [w]. *)
Definition download_fails (env : environment) (w : world)
    (file_uuid : pyval) : Prop :=
  description_fails env file_uuid \/
  diagnostics_fail env file_uuid \/
  open_fails env w file_uuid.

(** What a download task guarantees when it returns [r] in world [w]:
    the file it resolved exists, its description was usable or its
    diagnostics were printed, and it returns [True] only where it was
    allowed to write. *)
Definition download_post (env : environment) (may_write : Prop)
    (file_uuid r : pyval) (w : world) : Prop :=
  (forall filename,
     resolved_name env file_uuid = Some filename ->
     path_exists w filename = true) /\
  ~ description_fails env file_uuid /\
  ~ diagnostics_fail env file_uuid /\
  (r = PNone \/ (r = PBool true /\ may_write)).

(** The same service with another body behind every storage resource. *)
Definition with_content (r : response) (body : bytes) : response :=
  {| status := status r;
     headers := headers r;
     content := body;
     charset := charset r;
     json := json r;
     final_url := final_url r;
     history := history r |}.

Definition restocked (env : environment) (body : bytes) : environment :=
  {| http_get := fun u =>
       match u with
       | docstore_url _ => with_content (http_get env u) body
       | _ => http_get env u
       end;
     filter_cookies := filter_cookies env;
     set_order := set_order env;
     ucd := ucd env;
     open_refused := open_refused env |}.

(** ** A sample service

    Three travel sheets [u1], [u2], [u3]; [u1] and [u3] carry the
    document [p1], [u2] carries none.  [p1] is stored as [s1] under the
    name [doc.pdf]; [p2] is stored as [s2], which names no file; every
    other document is unknown to the service. *)

(** The JSON text of a value whose strings need no escaping. *)
Fixpoint render (v : pyval) : str :=
  match v with
  | PNone => ustr "null"
  | PBool b => ustr (if b then "true" else "false")
  | PInt n => ustr (NilZero.string_of_int (Z.to_int n))
  | PStr s => [QUOTE] ++ s ++ [QUOTE]
  | PList l =>
    ustr "[" ++
    (fix items (l : list pyval) : str :=
       match l with
       | [] => []
       | [x] => render x
       | x :: l' => render x ++ ustr ", " ++ items l'
       end) l ++ ustr "]"
  | PDict d =>
    ustr "{" ++
    (fix items (d : list (str * pyval)) : str :=
       match d with
       | [] => []
       | [(k, x)] => [QUOTE] ++ k ++ [QUOTE] ++ ustr ": " ++ render x
       | (k, x) :: d' =>
         [QUOTE] ++ k ++ [QUOTE] ++ ustr ": " ++ render x ++ ustr ", "
         ++ items d'
       end) d ++ ustr "}"
  end.

Definition json_response (v : pyval) : response :=
  {| status := 200;
     headers := [(ustr "Content-Type", ustr "application/json")];
     content := render v;
     charset := utf_8;
     json := Ok v;
     final_url := ustr "https://safe-route.ru/api";
     history := [] |}.

Definition not_found : response :=
  {| status := 404;
     headers := [(ustr "Content-Type", ustr "text/html")];
     content := ustr "not found";
     charset := utf_8;
     json := Err ContentTypeError;
     final_url := ustr "https://safe-route.ru/login";
     history := [(ustr "https://safe-route.ru/api", 302%Z)] |}.

Definition quoted_filename (name : string) : str :=
  ustr "attachment; filename=" ++ [QUOTE] ++ ustr name ++ [QUOTE].

Definition stored_file (disposition : list (str * str)) (body : string)
    : response :=
  {| status := 200;
     headers := disposition;
     content := ustr body;
     charset := utf_8;
     json := Err ContentTypeError;
     final_url := ustr "https://safe-route.ru/api/docstore";
     history := [] |}.

Definition travel_sheet (uuid : string) : pyval :=
  PDict [(ustr "uuid", PStr (ustr uuid))].

Definition named (s : string) (v : pyval) : bool :=
  match v with
  | PStr t => str_eqb t (ustr s)
  | _ => false
  end.

Definition sample_get (u : url) : response :=
  match u with
  | claims_url _ =>
    json_response
      (PDict [(ustr "data",
               PList [travel_sheet "u1"; travel_sheet "u2";
                      travel_sheet "u3"])])
  | special_projects_url claim_uuid =>
    if named "u1" claim_uuid || named "u3" claim_uuid then
      json_response
        (PList [PDict [(ustr "special_project_uuid", PStr (ustr "p1"))]])
    else json_response (PList [])
  | download_url file_uuid =>
    if named "p1" file_uuid then
      json_response (PDict [(ustr "store_uuid", PStr (ustr "s1"))])
    else if named "p2" file_uuid then
      json_response (PDict [(ustr "store_uuid", PStr (ustr "s2"))])
    else not_found
  | docstore_url store_uuid =>
    if named "s1" store_uuid then
      stored_file [(ustr "Content-Disposition", quoted_filename "doc.pdf")]
        "%PDF-1.7"
    else if named "s2" store_uuid then stored_file [] "%PDF-1.7"
    else not_found
  end.

(** The sample service seen through a set that iterates in the order of
    insertion. *)
Definition sample_env : environment :=
  {| http_get := sample_get;
     filter_cookies := fun _ => [(ustr "kgws_lkp", ustr "token")];
     set_order := fun l => l;
     ucd := ucd_excerpt;
     open_refused := fun _ => false |}.

(** A service that holds a thousand travel sheets and lists as many of
    them as the limit allows. *)
Definition thousand_sheets : list pyval :=
  map (fun i =>
         PDict [(ustr "uuid",
                 PStr (ustr (NilZero.string_of_uint (Nat.to_uint i))))])
      (seq 0 1000).

Definition full_listing_get (u : url) : response :=
  match u with
  | claims_url limit =>
    json_response
      (PDict [(ustr "data", PList (take (Z.to_nat limit) thousand_sheets))])
  | _ => not_found
  end.

Definition full_listing_env : environment :=
  {| http_get := full_listing_get;
     filter_cookies := fun _ => [];
     set_order := fun l => l;
     ucd := ucd_excerpt;
     open_refused := fun _ => false |}.

(** An account without travel sheets. *)
Definition empty_listing_get (u : url) : response :=
  match u with
  | claims_url _ => json_response (PDict [(ustr "data", PList [])])
  | _ => not_found
  end.

Definition empty_listing_env : environment :=
  {| http_get := empty_listing_get;
     filter_cookies := fun _ => [];
     set_order := fun l => l;
     ucd := ucd_excerpt;
     open_refused := fun _ => false |}.

(** A gateway in front of the sample service that answers the request
    for the description of any document with status 502 and a body
    that is not the UTF-8 its header announces. *)
Definition bad_gateway : response :=
  {| status := 502;
     headers := [(ustr "Content-Type", ustr "text/html; charset=utf-8")];
     content := [255];
     charset := utf_8;
     json := Err ContentTypeError;
     final_url := ustr "https://safe-route.ru/api";
     history := [] |}.

Definition bad_gateway_get (u : url) : response :=
  match u with
  | download_url _ => bad_gateway
  | _ => sample_get u
  end.

Definition bad_gateway_env : environment :=
  {| http_get := bad_gateway_get;
     filter_cookies := fun _ => [];
     set_order := fun l => l;
     ucd := ucd_excerpt;
     open_refused := fun _ => false |}.

(** A file name in Russian, percent-encoded as UTF-8. *)
Definition cyrillic_disposition : str := quoted_filename "%D0%B4.pdf".

(** Three operations that answer after two, one and three turns. *)
Definition slow_echo (arg : nat) : coro nat :=
  match arg with
  | 0%nat => Await (Await (Return 10%nat))
  | 1%nat => Await (Return 11%nat)
  | _ => Await (Await (Await (Return 12%nat)))
  end.

(** ** The accounts

    Lines 174-185.  [session] is what the session opened with a given
    cookie header finds around it, [schedules] gives the schedules of
    the two fan-outs of each account. *)

Section Accounts.

Variable session : str -> environment.
Variable depth : nat.
Variable schedules : Z -> list nat * list nat.

(** The loop of [main] from the account numbered [number] on. *)
Fixpoint main_from (number : Z) (kgws_lkp_list : list str) : coro unit :=
  match kgws_lkp_list with
  | [] => Return tt
  | kgws_lkp :: rest =>
    let headers := ustr "kgws_lkp=" ++ kgws_lkp in
    start_parser (session headers) depth
      (fst (schedules number)) (snd (schedules number)) number ;;;
    main_from (number + 1) rest
  end.

(** Lines 174-179: [enumerate(kgws_lkp_list, start=1)]. *)
Definition main (kgws_lkp_list : list str) : coro unit :=
  main_from 1 kgws_lkp_list.

(** [s.split()]: the maximal runs of characters that are not
    whitespace; [current] is the run being read. *)
Fixpoint split_from (isspace : N -> bool) (current : str) (s : str)
    : list str :=
  match s with
  | [] =>
    match current with
    | [] => []
    | _ => [current]
    end
  | c :: s' =>
    if isspace c then
      match current with
      | [] => split_from isspace [] s'
      | _ => current :: split_from isspace [] s'
      end
    else split_from isspace (current ++ [c]) s'
  end.

Definition split (isspace : N -> bool) (s : str) : list str :=
  split_from isspace [] s.

(** Lines 182-185: [getenv] is the value of [KGWS_LKP_LIST], if set. *)
Definition KGWS_LKP_LIST (isspace : N -> bool) (getenv : option str)
    : list str :=
  split isspace (default [] getenv).

Definition entry_point (isspace : N -> bool) (getenv : option str)
    : coro unit :=
  main (KGWS_LKP_LIST isspace getenv).

End Accounts.

(** ** Notions the further properties use *)

(** The [uuid] a travel-sheet record contributes to the listing. *)
Definition uuid_of (travel_sheet : pyval) : option pyval :=
  match travel_sheet with
  | PDict d =>
    match dict_lookup d (ustr "uuid") with
    | Some uuid => if is_none uuid then None else Some uuid
    | None => None
    end
  | _ => None
  end.

Definition is_record (v : pyval) : bool :=
  match v with
  | PDict _ => true
  | _ => false
  end.

(** The diagnostic lines of [info_request_log] for a response whose
    body decodes to [body]. *)
Definition diagnostic_lines (env : environment) (u : url) (r : response)
    (body : str) : list event :=
  Printed (MsgInfoRequestLog (filter_cookies env u) (status r) (headers r)
             body (final_url r))
  :: redirect_lines r.

(** A service that answers every request with its login page. *)
Definition login_wall_env : environment :=
  {| http_get := fun _ => not_found;
     filter_cookies := fun _ => [];
     set_order := fun l => l;
     ucd := ucd_excerpt;
     open_refused := fun _ => false |}.

(** A coroutine that raises on every path, and an exception it can
    raise. *)
Fixpoint always_raises {R} (c : coro R) : Prop :=
  match c with
  | Return _ => False
  | Raise _ => True
  | Effect _ k => forall w, always_raises (k w)
  | Await k => always_raises k
  end.

Fixpoint may_raise {R} (c : coro R) (e : exn) : Prop :=
  match c with
  | Return _ => False
  | Raise e' => e' = e
  | Effect _ k => exists w, may_raise (k w) e
  | Await k => may_raise k e
  end.

(** An operation that fails at once. *)
Definition failing (e : exn) (arg : nat) : coro nat :=
  match arg with
  | 1%nat => Await (Raise e)
  | _ => slow_echo arg
  end.

(** The names of the files a trace opens, oldest first. *)
Fixpoint opened_names (t : list event) : list str :=
  match t with
  | [] => []
  | Opened filename :: t' => filename :: opened_names t'
  | _ :: t' => opened_names t'
  end.

(** From [w] to [w'] every file is kept, and the files opened were not
    there before, are there now, and were opened once each. *)
Definition opens_fresh (w w' : world) : Prop :=
  preserved w w' /\
  exists names,
    opened_names (trace w') = opened_names (trace w) ++ names /\
    NoDup names /\
    forall filename,
      filename ∈ names ->
      files w !! filename = None /\ is_Some (files w' !! filename).

(** A login page that is not the UTF-8 its header announces, behind
    every address. *)
Definition garbled_login : response :=
  {| status := 200;
     headers := [(ustr "Content-Type", ustr "text/html; charset=utf-8")];
     content := [255];
     charset := utf_8;
     json := Err ContentTypeError;
     final_url := ustr "https://safe-route.ru/login";
     history := [] |}.

Definition garbled_login_env : environment :=
  {| http_get := fun _ => garbled_login;
     filter_cookies := fun _ => [];
     set_order := fun l => l;
     ucd := ucd_excerpt;
     open_refused := fun _ => false |}.

(** The sample service on a machine whose file names hold at most 255
    characters, every document being stored under a name of 304. *)
Definition long_name : str := repeat 97 300 ++ ustr ".pdf".

Definition long_name_get (u : url) : response :=
  match u with
  | docstore_url _ =>
    {| status := 200;
       headers := [(ustr "Content-Disposition",
                    ustr "attachment; filename=" ++ [QUOTE] ++ long_name
                    ++ [QUOTE])];
       content := ustr "%PDF-1.7";
       charset := utf_8;
       json := Err ContentTypeError;
       final_url := ustr "https://safe-route.ru/api/docstore";
       history := [] |}
  | _ => sample_get u
  end.

Definition long_name_env : environment :=
  {| http_get := long_name_get;
     filter_cookies := fun _ => [];
     set_order := fun l => l;
     ucd := ucd_excerpt;
     open_refused := fun name => Nat.ltb 255 (length name) |}.

(** Two documents stored under one name. *)
Definition twin_get (u : url) : response :=
  match u with
  | download_url _ =>
    json_response (PDict [(ustr "store_uuid", PStr (ustr "s1"))])
  | _ => sample_get u
  end.

Definition twin_env : environment :=
  {| http_get := twin_get;
     filter_cookies := fun _ => [];
     set_order := fun l => l;
     ucd := ucd_excerpt;
     open_refused := fun _ => false |}.

(** Every synchronous step of a coroutine is a step of [G], from
    whatever world it is taken. *)
Fixpoint steps {R} (G : world -> world -> Prop) (c : coro R) : Prop :=
  match c with
  | Effect f k => forall w, G w (f w) /\ steps G (k w)
  | Await k => steps G k
  | _ => True
  end.

(** From [w] to [w'] the trace has grown by events of [P]. *)
Definition extends (P : event -> Prop) (w w' : world) : Prop :=
  exists es, trace w' = trace w ++ es /\ Forall P es.

(** The download directory is as it was. *)
Definition same_disk (w w' : world) : Prop :=
  files w' = files w /\ downloads_dir w' = downloads_dir w.

(** A request for the candidates of one of the given travel sheets. *)
Definition resolver_request (claim_uuids : list pyval) (e : event) : Prop :=
  exists claim_uuid,
    In claim_uuid claim_uuids /\
    e = Requested (special_projects_url claim_uuid).

Definition reads_only (claim_uuids : list pyval) (w w' : world) : Prop :=
  same_disk w w' /\ extends (resolver_request claim_uuids) w w'.

(** Lines 131-133 on the results of the resolvers. *)
Definition drop_sentinel (env : environment) (responses : list pyval)
    : result (list pyval) :=
  result_bind (list_of_set env responses) (fun file_uuids =>
  result_bind (getitem_int (PList file_uuids) (-1)) (fun last =>
  Ok (if is_none last then removelast file_uuids else file_uuids))).

(** The lines that open and close the processing of an account. *)
Definition is_account_line (e : event) : bool :=
  match e with
  | Printed (MsgStart _) | Printed (MsgFinish _) => true
  | _ => false
  end.

Fixpoint account_lines (t : list event) : list event :=
  match t with
  | [] => []
  | e :: t' =>
    if is_account_line e then e :: account_lines t' else account_lines t'
  end.

Definition inner (e : event) : Prop := is_account_line e = false.

(** The opening and closing lines of [k] accounts numbered from
    [number] on. *)
Fixpoint account_frames (number : Z) (k : nat) : list event :=
  match k with
  | O => []
  | S k' =>
    Printed (MsgStart number) :: Printed (MsgFinish number)
    :: account_frames (number + 1) k'
  end.

(** Whitespace for the samples: space, tab, newline, carriage return. *)
Definition ascii_space (c : N) : bool :=
  (c =? 32) || (c =? 9) || (c =? 10) || (c =? 13).

(** Every account sees the sample service, except the one whose token is
    [bad], which sees the login page. *)
Definition sample_session (headers : str) : environment :=
  if str_eqb headers (ustr "kgws_lkp=bad") then login_wall_env
  else sample_env.
(** * Properties *)

(** ** Running coroutines *)

Lemma run_bind {A B} (c : coro A) (f : A -> coro B) (w : world) :
  run (bind c f) w =
  match run c w with
  | (w', Ok a) => run (f a) w'
  | (w', Err e) => (w', Err e)
  end.
Proof.
  revert w. induction c as [r | e | g k IH | k IH]; intros w; cbn.
  - reflexivity.
  - reflexivity.
  - apply IH.
  - apply IH.
Qed.

Lemma logged_logged (w : world) (es es' : list event) :
  logged (logged w es) es' = logged w (es ++ es').
Proof. unfold logged. cbn. by rewrite <- app_assoc. Qed.

Lemma run_resume {R} (c : coro R) (w : world) :
  run (snd (resume c w)) (fst (resume c w)) = run c w.
Proof.
  revert w. induction c as [r | e | g k IH | k IH]; intros w; cbn;
    [reflexivity | reflexivity | apply IH | reflexivity].
Qed.

(** A fan-out of one task does what the task does, whatever the
    schedule. *)
Lemma gather_single {R} (schedule : list nat) (t : coro R) (w : world) :
  run (gather schedule [t]) w =
  match run t w with
  | (w', Ok r) => (w', Ok [r])
  | (w', Err e) => (w', Err e)
  end.
Proof.
  revert t w. induction schedule as [| i schedule IH]; intros t w.
  - destruct t; cbn; try reflexivity.
    + rewrite run_bind. destruct (run (k w) (f w)) as [w' [r | e]]; reflexivity.
    + rewrite run_bind. destruct (run t w) as [w' [r | e]]; reflexivity.
  - destruct t as [r | e | f k | k]; try reflexivity.
    + destruct i as [| i]; cbn [gather poll lookup list_lookup].
      * cbn [run insert list_insert]. rewrite IH.
        rewrite (run_resume (Effect f k) w). reflexivity.
      * exact (IH (Effect f k) w).
    + destruct i as [| i]; cbn [gather poll lookup list_lookup].
      * cbn [run insert list_insert]. rewrite IH.
        rewrite (run_resume (Await k) w). reflexivity.
      * exact (IH (Await k) w).
Qed.

Lemma async_requester_single {A R} (schedule : list nat) (arg : A)
    (callback : A -> coro R) (w : world) :
  run (async_requester schedule [arg] callback) w =
  match run (callback arg) w with
  | (w', Ok r) => (w', Ok [r])
  | (w', Err e) => (w', Err e)
  end.
Proof. unfold async_requester. cbn. apply gather_single. Qed.

Lemma logged_nil (w : world) : logged w [] = w.
Proof. destruct w. unfold logged. cbn. by rewrite app_nil_r. Qed.

Lemma run_emit {R} (e : event) (f : unit -> coro R) (w : world) :
  run (bind (emit e) f) w = run (f tt) (logged w [e]).
Proof. reflexivity. Qed.

Lemma run_print {R} (m : message) (f : unit -> coro R) (w : world) :
  run (bind (print m) f) w = run (f tt) (logged w [Printed m]).
Proof. reflexivity. Qed.

Lemma run_session_get {R} (env : environment) (u : url)
    (f : response -> coro R) (w : world) :
  run (bind (session_get env u) f) w
    = run (f (http_get env u)) (logged w [Requested u]).
Proof. reflexivity. Qed.

Lemma run_lift {A R} (r : result A) (f : A -> coro R) (w : world) :
  run (bind (lift r) f) w =
  match r with
  | Ok a => run (f a) w
  | Err e => (w, Err e)
  end.
Proof. destruct r; reflexivity. Qed.

Lemma run_redirect_lines {R} (hist : list (str * Z)) (f : unit -> coro R)
    (w : world) :
  run (bind (fold_right
               (fun redirect rest =>
                  print (MsgRedirect (fst redirect) (snd redirect)) ;;; rest)
               (Return tt) hist) f) w
    = run (f tt)
        (logged w (map (fun h => Printed (MsgRedirect (fst h) (snd h)))
                     hist)).
Proof.
  revert w. induction hist as [| h hist IH]; intros w.
  - cbn. by rewrite logged_nil.
  - cbn [fold_right map bind print emit effect run]. rewrite IH.
    by rewrite logged_logged.
Qed.

(** [info_request_log] prints its lines when the body decodes, and
    raises before it prints when the body does not. *)
Lemma run_info_request_log {R} (env : environment) (u : url)
    (r : live_response) (f : unit -> coro R) (w : world) :
  run (bind (info_request_log env u r) f) w =
  match text (resp r) with
  | Ok body =>
    run (f tt)
      (logged w (Printed (MsgInfoRequestLog (filter_cookies env u)
                            (status (resp r)) (headers (resp r))
                            body (final_url (resp r)))
                 :: redirect_lines (resp r)))
  | Err e => (w, Err e)
  end.
Proof.
  unfold info_request_log, response_text, suspend, redirect_lines.
  cbn [bind run]. destruct (text (resp r)) as [body | e]; [| reflexivity].
  cbn [lift bind run resp drained print emit effect].
  rewrite run_redirect_lines, logged_logged. reflexivity.
Qed.

Lemma run_download_all_files_single (env : environment)
    (schedule : list nat) (file_uuid : pyval) (number : Z) (w : world) :
  run (download_all_files env schedule [file_uuid] number) w =
  match run (download_pdf env file_uuid) w with
  | (w', Ok r) =>
    (logged w' [Printed (MsgSuccessfulDownloads
                           (if truthy r then 1 else 0) 1 number)],
     Ok tt)
  | (w', Err e) => (w', Err e)
  end.
Proof.
  unfold download_all_files. rewrite run_bind, async_requester_single.
  destruct (run (download_pdf env file_uuid) w) as [w' [r | e]];
    [| reflexivity].
  cbn. destruct (truthy r); reflexivity.
Qed.

(** ** Tasks that share the world *)

Section RelyGuarantee.

Context {A R : Type}.
Variable G : world -> world -> Prop.
Variable Q : A -> R -> world -> Prop.
Variable E : exn -> Prop.

Hypothesis G_refl : forall w, G w w.
Hypothesis G_trans : forall w1 w2 w3, G w1 w2 -> G w2 w3 -> G w1 w3.
Hypothesis Q_stable : forall a r w w', Q a r w -> G w w' -> Q a r w'.

Lemma safe_later (a : A) (w w' : world) (c : coro R) :
  G w w' -> safe G (Q a) E w c -> safe G (Q a) E w' c.
Proof. intros Hww' Hsafe w'' Hw''. apply Hsafe. by eapply G_trans. Qed.

Lemma seg_run (a : A) (c : coro R) (w : world) :
  seg G (Q a) E w c ->
  G w (fst (run c w)) /\
  match snd (run c w) with
  | Ok r => Q a r (fst (run c w))
  | Err e => E e
  end.
Proof.
  revert w. induction c as [r | e | f k IH | k IH]; intros w Hseg; cbn in *.
  - by split.
  - by split.
  - destruct Hseg as [Hstep Hrest].
    destruct (IH w (f w) Hrest) as [Hg Hq].
    split; [by eapply G_trans | exact Hq].
  - apply IH, Hseg, G_refl.
Qed.

Lemma seg_resume (a : A) (c : coro R) (w : world) :
  seg G (Q a) E w c ->
  G w (fst (resume c w)) /\
  safe G (Q a) E (fst (resume c w)) (snd (resume c w)).
Proof.
  revert w. induction c as [r | e | f k IH | k IH]; intros w Hseg; cbn in *.
  - split; [apply G_refl |]. intros w' Hw'. cbn. by eapply Q_stable.
  - split; [apply G_refl |]. intros w' Hw'. exact Hseg.
  - destruct Hseg as [Hstep Hrest].
    destruct (IH w (f w) Hrest) as [Hg Hs].
    split; [by eapply G_trans | exact Hs].
  - split; [apply G_refl | exact Hseg].
Qed.

Lemma all_safe_later (w w' : world) (args : list A)
    (tasks : list (coro R)) :
  G w w' -> all_safe G Q E w args tasks -> all_safe G Q E w' args tasks.
Proof.
  intros Hww' Hall. eapply Forall2_impl; [exact Hall |].
  intros a t Hsafe. by eapply safe_later.
Qed.

Lemma poll_sound (w : world) (args : list A) (tasks : list (coro R)) :
  all_safe G Q E w args tasks ->
  match poll tasks with
  | AllDone rs => Forall2 (fun a r => Q a r w) args rs
  | Failed e => E e
  | Pending => True
  end.
Proof.
  intros Hall. induction Hall as [| a t args tasks Hsafe _ IH]; cbn.
  - constructor.
  - destruct t as [r | e | f k | k].
    + destruct (poll tasks) as [rs | e | ]; try exact IH.
      constructor; [| exact IH]. exact (Hsafe w (G_refl w)).
    + exact (Hsafe w (G_refl w)).
    + destruct (poll tasks); try exact I. exact IH.
    + destruct (poll tasks); try exact I. exact IH.
Qed.

Lemma in_order_sound (w : world) (args : list A) (tasks : list (coro R)) :
  all_safe G Q E w args tasks ->
  G w (fst (run (in_order tasks) w)) /\
  match snd (run (in_order tasks) w) with
  | Ok rs => Forall2 (fun a r => Q a r (fst (run (in_order tasks) w))) args rs
  | Err e => E e
  end.
Proof.
  intros Hall. revert w Hall.
  induction tasks as [| t tasks IH] in args |- *; intros w Hall.
  - apply Forall2_nil_inv_r in Hall as ->. cbn.
    split; [apply G_refl | constructor].
  - apply Forall2_cons_inv_r in Hall as (a & args' & Hsafe & Hall & ->).
    cbn [in_order]. rewrite run_bind.
    destruct (seg_run a t w (Hsafe w (G_refl w))) as [Hg Hq].
    destruct (run t w) as [w1 [r | e]]; cbn [fst snd] in *.
    + rewrite run_bind.
      destruct (IH args' w1 (all_safe_later w w1 _ _ Hg Hall)) as [Hg' Hq'].
      destruct (run (in_order tasks) w1) as [w2 [rs | e]];
        cbn [fst snd run] in *.
      * split; [by eapply G_trans |].
        constructor; [by eapply Q_stable | exact Hq'].
      * split; [by eapply G_trans | exact Hq'].
    + by split.
Qed.

(** Whatever the schedule, a fan-out of tasks that keep to [G] keeps to
    [G], and its results satisfy the postconditions of the tasks, each
    result at the place of its task. *)
Lemma gather_sound (schedule : list nat) (w : world) (args : list A)
    (tasks : list (coro R)) :
  all_safe G Q E w args tasks ->
  G w (fst (run (gather schedule tasks) w)) /\
  match snd (run (gather schedule tasks) w) with
  | Ok rs =>
    Forall2 (fun a r => Q a r (fst (run (gather schedule tasks) w))) args rs
  | Err e => E e
  end.
Proof.
  revert w tasks. induction schedule as [| i schedule IH];
    intros w tasks Hall.
  - pose proof (poll_sound w args tasks Hall) as Hpoll.
    cbn [gather]. destruct (poll tasks) as [rs | e | ].
    + cbn. split; [apply G_refl | exact Hpoll].
    + cbn. split; [apply G_refl | exact Hpoll].
    + by apply in_order_sound.
  - pose proof (poll_sound w args tasks Hall) as Hpoll.
    cbn [gather]. destruct (poll tasks) as [rs | e | ].
    + cbn. split; [apply G_refl | exact Hpoll].
    + cbn. split; [apply G_refl | exact Hpoll].
    + destruct (tasks !! i) as [t |] eqn:Hi; [| by apply IH].
      cbn [run].
      destruct (Forall2_lookup_r _ _ _ _ _ Hall Hi) as (a & Ha & Hsafe).
      destruct (seg_resume a t w (Hsafe w (G_refl w))) as [Hg Hs].
      assert (Hall' : all_safe G Q E (fst (resume t w)) args
                        (<[i := snd (resume t w)]> tasks)).
      { rewrite <- (list_insert_id args i a Ha).
        apply Forall2_insert; [| exact Hs].
        by eapply all_safe_later. }
      destruct (IH _ _ Hall') as [Hg' Hq'].
      split; [by eapply G_trans | exact Hq'].
Qed.

End RelyGuarantee.

(** ** The fan-out driver *)

Lemma tasks_of_loop {A R} (callback : A -> coro R) (arg_list : list A)
    (tasks : list (coro R)) :
  fold_left (fun tasks arg => tasks ++ [callback arg]) arg_list tasks
    = tasks ++ map callback arg_list.
Proof.
  revert tasks. induction arg_list as [| arg arg_list IH]; intros tasks;
    cbn [fold_left map].
  - by rewrite app_nil_r.
  - rewrite IH, <- app_assoc. reflexivity.
Qed.

(** One task per argument, in the order of the arguments. *)
Lemma run_async_requester {A R} (schedule : list nat) (arg_list : list A)
    (callback : A -> coro R) (w : world) :
  run (async_requester schedule arg_list callback) w
    = run (gather schedule (map callback arg_list)) w.
Proof. unfold async_requester. by rewrite tasks_of_loop. Qed.

Lemma seg_of_returns {R} (P : R -> Prop) (c : coro R) (w : world) :
  never_raises c ->
  (forall r, may_return c r -> P r) ->
  seg (fun _ _ => True) (fun r _ => P r) (fun _ => False) w c.
Proof.
  revert w. induction c as [r | e | f k IH | k IH]; intros w Hnever Hret;
    cbn in *.
  - by apply Hret.
  - exact Hnever.
  - split; [exact I |]. apply IH; [apply Hnever |].
    intros r Hr. apply Hret. by exists w.
  - intros w' _. by apply IH.
Qed.

Lemma seg_of_results {R} (P : R -> Prop) (c : coro R) (w : world) :
  (forall r, may_return c r -> P r) ->
  seg (fun _ _ => True) (fun r _ => P r) (fun _ => True) w c.
Proof.
  revert w. induction c as [r | e | f k IH | k IH]; intros w Hret;
    cbn in *.
  - by apply Hret.
  - exact I.
  - split; [exact I |]. apply IH.
    intros r Hr. apply Hret. by exists w.
  - intros w' _. by apply IH.
Qed.

(** *** The run of a fan-out is an interleaving of its tasks *)

Lemma poll_returned {R} (rs : list R) :
  poll (map Return rs) = AllDone rs.
Proof. induction rs as [| r rs IH]; cbn; [| rewrite IH]; reflexivity. Qed.

Lemma poll_all_done {R} (tasks : list (coro R)) (rs : list R) :
  poll tasks = AllDone rs -> tasks = map Return rs.
Proof.
  revert rs. induction tasks as [| t tasks IH]; intros rs H; cbn in H.
  - by injection H as <-.
  - destruct t as [r | e | f k | k]; [| discriminate | |];
      destruct (poll tasks) as [rs' | e' |]; try discriminate.
    injection H as <-. cbn. f_equal. by apply IH.
Qed.

Lemma poll_failed {R} (tasks : list (coro R)) (e : exn) :
  poll tasks = Failed e -> exists i, tasks !! i = Some (Raise e).
Proof.
  induction tasks as [| t tasks IH]; intros H; cbn in H; [discriminate |].
  destruct t as [r | e0 | f k | k].
  - destruct (poll tasks) as [rs' | e' |]; try discriminate.
    injection H as ->. destruct (IH eq_refl) as [i Hi]. by exists (S i).
  - injection H as ->. by exists 0%nat.
  - destruct (poll tasks) as [rs' | e' |]; try discriminate.
    injection H as ->. destruct (IH eq_refl) as [i Hi]. by exists (S i).
  - destruct (poll tasks) as [rs' | e' |]; try discriminate.
    injection H as ->. destruct (IH eq_refl) as [i Hi]. by exists (S i).
Qed.

Lemma poll_raised {R} (tasks : list (coro R)) (i : nat) (e : exn) :
  tasks !! i = Some (Raise e) -> exists e', poll tasks = Failed e'.
Proof.
  revert i. induction tasks as [| t tasks IH]; intros i Hi; [discriminate |].
  destruct i as [| i].
  - injection Hi as ->. by exists e.
  - destruct (IH i Hi) as [e' He']. cbn [poll]. rewrite He'.
    destruct t; eauto.
Qed.

Lemma gather_polled {R} (schedule : list nat) (tasks : list (coro R)) :
  gather schedule tasks =
  match poll tasks with
  | AllDone rs => Return rs
  | Failed e => Raise e
  | Pending => gather schedule tasks
  end.
Proof. destruct schedule; cbn [gather]; by destruct (poll tasks). Qed.

(** A task that is left to run to its end takes the steps of the
    interleaving, one for each of its awaits. *)
Lemma interleaving_task {R} (t : coro R) :
  forall (tasks : list (coro R)) (i : nat) (t0 : coro R) (w0 w w' : world)
         (out : result (list R)),
    tasks !! i = Some t0 ->
    resume t0 w0 = resume t w ->
    interleaving (<[i := lift (snd (run t w))]> tasks) (fst (run t w)) w' out ->
    interleaving tasks w0 w' out.
Proof.
  induction t as [r | e | f k IH | k IH];
    intros tasks i t0 w0 w w' out Hi Hresume Hrest.
  - apply (one_advances tasks i t0 w0 w' out Hi). by rewrite Hresume.
  - apply (one_advances tasks i t0 w0 w' out Hi). by rewrite Hresume.
  - exact (IH w tasks i t0 w0 (f w) w' out Hi Hresume Hrest).
  - apply (one_advances tasks i t0 w0 w' out Hi). rewrite Hresume.
    cbn [resume fst snd].
    apply (IH (<[i := k]> tasks) i k w w w' out).
    + apply list_lookup_insert_eq. by eapply lookup_lt_Some.
    + reflexivity.
    + rewrite list_insert_insert_eq. exact Hrest.
Qed.

Lemma in_order_interleaving {R} (tasks : list (coro R)) :
  forall (done : list R) (w : world),
    interleaving (map Return done ++ tasks) w
      (fst (run (in_order tasks) w))
      (result_bind (snd (run (in_order tasks) w))
         (fun rs => Ok (done ++ rs))).
Proof.
  induction tasks as [| t tasks IH]; intros done w.
  - cbn. rewrite !app_nil_r. apply all_returned.
  - cbn [in_order]. rewrite run_bind.
    assert (Hlen : length (map (@Return R) done) = length done)
      by apply length_map.
    apply (interleaving_task t _ (length done) t w w).
    { rewrite lookup_app_r by (rewrite Hlen; reflexivity).
      by rewrite Hlen, Nat.sub_diag. }
    { reflexivity. }
    rewrite insert_app_r_alt by (rewrite Hlen; reflexivity).
    rewrite Hlen, Nat.sub_diag. cbn [insert list_insert].
    destruct (run t w) as [w1 [r | e]]; cbn [fst snd lift result_bind].
    + rewrite run_bind. specialize (IH (done ++ [r]) w1).
      rewrite map_app, <- app_assoc in IH. cbn [map app] in IH.
      destruct (run (in_order tasks) w1) as [w2 [rs | e]];
        cbn [fst snd run result_bind] in *.
      * by rewrite <- app_assoc in IH.
      * exact IH.
    + apply (one_raised _ (length done) e).
      rewrite lookup_app_r by (rewrite Hlen; reflexivity).
      by rewrite Hlen, Nat.sub_diag.
Qed.

(** Whatever the schedule, the run of [gather] is an interleaving of the
    tasks on the world they share. *)
Lemma gather_interleaving {R} (schedule : list nat) :
  forall (tasks : list (coro R)) (w : world),
    interleaving tasks w (fst (run (gather schedule tasks) w))
      (snd (run (gather schedule tasks) w)).
Proof.
  induction schedule as [| i schedule IH]; intros tasks w;
    cbn [gather]; destruct (poll tasks) as [rs | e |] eqn:Hpoll.
  - apply poll_all_done in Hpoll as ->. apply all_returned.
  - apply poll_failed in Hpoll as [i Hi]. by eapply one_raised.
  - pose proof (in_order_interleaving tasks [] w) as H. cbn [map app] in H.
    by destruct (snd (run (in_order tasks) w)).
  - apply poll_all_done in Hpoll as ->. apply all_returned.
  - apply poll_failed in Hpoll as [j Hj]. by eapply one_raised.
  - destruct (tasks !! i) as [t |] eqn:Hi; [| apply IH].
    cbn [run]. eapply one_advances; [exact Hi | apply IH].
Qed.

(** Every interleaving in which all the tasks return is the run of
    [gather] under some schedule. *)
Lemma interleaving_scheduled {R} (tasks : list (coro R)) (w w' : world)
    (out : result (list R)) :
  interleaving tasks w w' out ->
  forall rs, out = Ok rs ->
  exists schedule, run (gather schedule tasks) w = (w', Ok rs).
Proof.
  induction 1 as [rs0 w | tasks i e w Hi | tasks i t w w' out Hi _ IH];
    intros rs Hout.
  - injection Hout as ->. exists []. cbn [gather].
    by rewrite poll_returned.
  - discriminate.
  - destruct (IH rs Hout) as [schedule Hrun].
    exists (i :: schedule). cbn [gather].
    destruct (poll tasks) as [rs0 | e |] eqn:Hpoll.
    + apply poll_all_done in Hpoll. subst tasks.
      rewrite list_lookup_fmap in Hi.
      destruct (rs0 !! i) as [r |] eqn:Hr; [| discriminate].
      injection Hi as <-. cbn [resume fst snd] in Hrun.
      rewrite list_insert_id in Hrun
        by (by rewrite list_lookup_fmap, Hr).
      by rewrite gather_polled, poll_returned in Hrun.
    + exfalso. apply poll_failed in Hpoll as [j Hj].
      assert (Hstill : exists j' e',
                (<[i := snd (resume t w)]> tasks) !! j' = Some (Raise e')).
      { destruct (decide (i = j)) as [-> | Hne].
        - exists j, e. rewrite Hj in Hi. injection Hi as <-.
          cbn [resume snd]. by rewrite list_insert_id.
        - exists j, e. by rewrite list_lookup_insert_ne. }
      destruct Hstill as (j' & e' & Hj').
      destruct (poll_raised _ _ _ Hj') as [e'' He''].
      rewrite gather_polled, He'' in Hrun. discriminate.
    + rewrite Hi. cbn [run]. exact Hrun.
Qed.

(** C5.  The driver starts one task per argument, in the order of the
    arguments.  Under every schedule, and so in whatever order the
    operations complete, its run is an interleaving of these tasks on the
    world they share: every operation takes all of its steps there, the
    driver returns when each of them has returned, and the result at each
    place is the value that the operation on the argument at that place
    has returned in this run; when an operation has raised, the driver
    raises.  So a list of results has one result per argument, each a
    value the operation on its argument can return, and operations that
    cannot raise always give one.  Every interleaving in which all the
    operations return is the run under some schedule. *)
Theorem async_requester_keeps_order {A R} (callback : A -> coro R)
    (arg_list : list A) (schedule : list nat) (w : world) :
  let out := run (async_requester schedule arg_list callback) w in
  interleaving (map callback arg_list) w (fst out) (snd out) /\
  (forall results,
     snd out = Ok results ->
     length results = length arg_list /\
     Forall2 (fun arg r => may_return (callback arg) r) arg_list results) /\
  ((forall arg, In arg arg_list -> never_raises (callback arg)) ->
   exists results, snd out = Ok results) /\
  (forall w' results,
     interleaving (map callback arg_list) w w' (Ok results) ->
     exists schedule',
       run (async_requester schedule' arg_list callback) w
         = (w', Ok results)).
Proof.
  cbn zeta. rewrite run_async_requester.
  pose (G := fun _ _ : world => True).
  pose (Q := fun (arg : A) (r : R) (_ : world) => may_return (callback arg) r).
  split; [apply gather_interleaving |].
  split; [| split].
  - intros results Hout.
    assert (Hall : all_safe G Q (fun _ => True) w arg_list
                     (map callback arg_list)).
    { unfold all_safe. apply Forall2_fmap_r, Forall_Forall2_diag.
      apply Forall_forall. intros arg _ w' _.
      apply (seg_of_results (may_return (callback arg))). auto. }
    destruct (gather_sound G Q (fun _ => True) (fun _ => I)
                (fun _ _ _ _ _ => I) (fun _ _ _ _ H _ => H)
                schedule w arg_list _ Hall) as [_ Hresults].
    rewrite Hout in Hresults.
    split; [| exact Hresults]. symmetry. by eapply Forall2_length.
  - intros Hnever.
    assert (Hall : all_safe G Q (fun _ => False) w arg_list
                     (map callback arg_list)).
    { unfold all_safe. apply Forall2_fmap_r, Forall_Forall2_diag.
      apply Forall_forall. intros arg Harg w' _.
      apply (seg_of_returns (may_return (callback arg))).
      - apply Hnever. by apply list_elem_of_In.
      - auto. }
    destruct (gather_sound G Q (fun _ => False) (fun _ => I)
                (fun _ _ _ _ _ => I) (fun _ _ _ _ H _ => H)
                schedule w arg_list _ Hall) as [_ Hresults].
    destruct (snd (run (gather schedule (map callback arg_list)) w))
      as [results | e]; [by exists results | contradiction].
  - intros w' results Hrun.
    destruct (interleaving_scheduled _ _ _ _ Hrun results eq_refl)
      as [schedule' Hschedule].
    exists schedule'. by rewrite run_async_requester.
Qed.

Lemma slow_echo_never_raises (arg : nat) : never_raises (slow_echo arg).
Proof. destruct arg as [| [| arg]]; exact I. Qed.

Lemma async_requester_keeps_order_witness :
  (forall arg, In arg [0; 1; 2]%nat -> never_raises (slow_echo arg)) /\
  interleaving (map slow_echo [0; 1; 2]%nat) fresh fresh
    (Ok [10; 11; 12]%nat) /\
  exists results,
    snd (run (async_requester [1; 0; 2; 2; 0]%nat [0; 1; 2]%nat slow_echo)
           fresh) = Ok results.
Proof.
  assert (H : forall arg, In arg [0; 1; 2]%nat -> never_raises (slow_echo arg))
    by (intros arg _; apply slow_echo_never_raises).
  split; [exact H |].
  split.
  - exact (proj1 (async_requester_keeps_order slow_echo [0; 1; 2]%nat
                    [1; 0; 2; 2; 0]%nat fresh)).
  - exact (proj1 (proj2 (proj2
             (async_requester_keeps_order slow_echo [0; 1; 2]%nat
                [1; 0; 2; 2; 0]%nat fresh))) H).
Defined.

(** The operation on the second argument completes before the one on
    the first, and the results still come in the order of the
    arguments. *)
Example second_completes_first :
  snd (resume (slow_echo 1) fresh) = Return 11%nat /\
  snd (resume (slow_echo 0) fresh) = Await (Return 10%nat) /\
  run (async_requester [1; 0; 2; 2; 0]%nat [0; 1; 2]%nat slow_echo) fresh
    = (fresh, Ok [10; 11; 12]%nat).
Proof. repeat split. Qed.

(** The results are those of this run: of two downloads that resolve to
    one name, the one that reaches the directory first creates the file
    and the other finds it, whichever of the two that is. *)
Example results_follow_the_run :
  snd (run (async_requester [0; 0; 0; 0; 1; 1; 1; 1]%nat
              [PStr (ustr "a"); PStr (ustr "b")] (download_pdf twin_env))
         fresh) = Ok [PBool true; PNone] /\
  snd (run (async_requester [1; 1; 1; 1; 0; 0; 0; 0]%nat
              [PStr (ustr "a"); PStr (ustr "b")] (download_pdf twin_env))
         fresh) = Ok [PNone; PBool true].
Proof. split; vm_compute; reflexivity. Qed.

(** ** Filename resolution *)

Lemma starts_with_app (p q s : str) :
  starts_with (p ++ q) s = true -> starts_with p s = true.
Proof.
  revert s. induction p as [| a p IH]; intros s H; [reflexivity |].
  destruct s as [| b s]; [discriminate |].
  cbn in *. apply andb_true_iff in H as [Hab Hrest].
  rewrite Hab. cbn. by apply IH.
Qed.

Lemma contains_cons (sub s : str) (c : N) :
  contains sub s = true -> contains sub (c :: s) = true.
Proof. intros H. cbn [contains]. rewrite H. apply orb_true_r. Qed.

Lemma contains_starts_with (sub s : str) :
  starts_with sub s = true -> contains sub s = true.
Proof. intros H. destruct s; cbn [contains]; by rewrite H. Qed.

Lemma match_filename_contains (s group : str) (len : nat) :
  match_filename s = Some (group, len) ->
  contains (ustr "filename") s = true.
Proof.
  unfold match_filename.
  destruct (starts_with filename_prefix s) eqn:Hprefix; [| discriminate].
  intros _. apply contains_starts_with.
  apply (starts_with_app (ustr "filename") [61; QUOTE]). exact Hprefix.
Qed.

Lemma findall_contains (skip : nat) (s group : str) (rest : list str) :
  findall_from skip s = group :: rest ->
  contains (ustr "filename") s = true.
Proof.
  revert skip. induction s as [| c s IH]; intros skip H; [discriminate |].
  cbn [findall_from] in H. destruct skip as [| k].
  - destruct (match_filename (c :: s)) as [[g len] |] eqn:Hmatch.
    + by eapply match_filename_contains.
    + apply contains_cons. by eapply IH.
  - apply contains_cons. by eapply IH.
Qed.

Lemma strip_trailing_quote_id (s : str) :
  ~ In QUOTE s -> strip_trailing_quote s = s.
Proof.
  induction s as [| c s IH]; intros H; [reflexivity |].
  cbn [strip_trailing_quote].
  destruct (N.eqb_spec c QUOTE) as [-> | _].
  - exfalso. apply H. by left.
  - cbn [andb]. rewrite IH; [reflexivity |].
    intros Hin. apply H. by right.
Qed.

Lemma strip_quotes_id (s : str) : ~ In QUOTE s -> strip_quotes s = s.
Proof.
  intros H. destruct s as [| c s]; [reflexivity |].
  cbn [strip_quotes]. destruct (N.eqb_spec c QUOTE) as [-> | _].
  - exfalso. apply H. by left.
  - by apply strip_trailing_quote_id.
Qed.

Lemma kept_ascii (db : unicode_db) (c : N) :
  ascii_faithful db -> c < 128 -> kept db c = ascii_filename_char c.
Proof.
  intros Hdb Hc. destruct (Hdb c Hc) as [Halnum Hdec].
  unfold kept, ascii_filename_char. rewrite Halnum, Hdec.
  unfold ascii_alnum. destruct (ascii_digit c), (ascii_upper c),
    (ascii_lower c), (c =? UNDERSCORE), (c =? DOT), (c =? DASH);
    reflexivity.
Qed.

Lemma sanitize_no_quote (db : unicode_db) (s : str) :
  ascii_faithful db -> ~ In QUOTE (sanitize db s).
Proof.
  intros Hdb Hin. unfold sanitize in Hin.
  apply in_map_iff in Hin as (c & Hc & _).
  destruct (kept db c) eqn:Hkept; [| discriminate].
  subst c. rewrite (kept_ascii db QUOTE Hdb) in Hkept; [discriminate |].
  reflexivity.
Qed.

Lemma sanitize_ascii (db : unicode_db) (s : str) :
  ascii_faithful db -> Forall (fun c => c < 128) s ->
  sanitize db s = spec_sanitize s.
Proof.
  intros Hdb Hs. unfold sanitize, spec_sanitize.
  induction Hs as [| c s Hc _ IH]; [reflexivity |].
  cbn [map]. rewrite IH, (kept_ascii db c Hdb Hc). reflexivity.
Qed.

Lemma ucd_excerpt_faithful : ascii_faithful ucd_excerpt.
Proof.
  intros c Hc. split; [| reflexivity].
  cbn [isalnum ucd_excerpt]. unfold russian_letter.
  destruct (N.leb_spec 1040 c); [lia |].
  destruct (N.eqb_spec c 1025); [lia |].
  destruct (N.eqb_spec c 1105); [lia |].
  cbn. apply orb_false_r.
Qed.

(** C4, the claim as stated fails: a letter outside ASCII is a word
    character for [\w], so the Russian name sent as [%D0%B4.pdf] keeps
    its first letter, which the class [[A-Za-z0-9_.-]] would replace. *)
Lemma filename_keeps_unicode_letters :
  unquote (ustr "%D0%B4.pdf") = 1076 :: ustr ".pdf" /\
  ascii_filename_char 1076 = false /\
  filename_of_disposition ucd_excerpt cyrillic_disposition
    = Some (1076 :: ustr ".pdf") /\
  spec_filename_of_disposition cyrillic_disposition
    = Some (ustr "_.pdf") /\
  filename_of_disposition ucd_excerpt cyrillic_disposition
    <> spec_filename_of_disposition cyrillic_disposition.
Proof.
  assert (Hcode : filename_of_disposition ucd_excerpt cyrillic_disposition
                  = Some (1076 :: ustr ".pdf")) by (vm_compute; reflexivity).
  assert (Hspec : spec_filename_of_disposition cyrillic_disposition
                  = Some (ustr "_.pdf")) by (vm_compute; reflexivity).
  repeat split; try assumption; try (vm_compute; reflexivity).
  rewrite Hcode, Hspec. discriminate.
Qed.

(** C4, amended.  For a [Content-Disposition] header with a quoted
    filename the resolution URL-decodes the captured value and replaces
    by an underscore every character that is neither a Unicode word
    character ([\w]: letters and digits of any script, and the
    underscore) nor a dot nor a dash; on ASCII these are the characters
    outside [[A-Za-z0-9_.-]].  No quote is left for the last
    substitution to strip.  The value [filename=Q a b/c?.pdf Q] resolves
    to [a_b_c_.pdf]. *)
Theorem filename_resolution (env : environment) (store_uuid : pyval)
    (content_disposition group : str) (rest : list str) (w : world) :
  let meta := http_get env (docstore_url store_uuid) in
  let name := sanitize (ucd env) (unquote group) in
  ascii_faithful (ucd env) ->
  status meta = 200%Z ->
  headers_get (headers meta) (ustr "Content-Disposition")
    = Some content_disposition ->
  findall_filename content_disposition = group :: rest ->
  run (get_filename_from_response_headers env store_uuid) w
    = (logged w [Requested (docstore_url store_uuid)],
       Ok (Some (strip_quotes name))) /\
  strip_quotes name = name /\
  Forall2 (fun c c' => c' = if kept (ucd env) c then c else UNDERSCORE)
    (unquote group) name /\
  (forall c, c < 128 -> kept (ucd env) c = ascii_filename_char c) /\
  filename_of_disposition (ucd env)
    (ustr "filename=" ++ [QUOTE] ++ ustr "a b/c?.pdf" ++ [QUOTE])
    = Some (ustr "a_b_c_.pdf").
Proof.
  intros meta name Hdb Hstatus Hheader Hfind.
  split.
  { unfold get_filename_from_response_headers.
    rewrite run_session_get. fold meta. rewrite Hstatus, Hheader.
    cbn [Z.eqb Pos.eqb run]. unfold filename_of_disposition.
    rewrite Hfind.
    rewrite (findall_contains 0 content_disposition group rest Hfind).
    destruct content_disposition; [discriminate | reflexivity]. }
  split.
  { apply strip_quotes_id, sanitize_no_quote, Hdb. }
  split.
  { subst name. unfold sanitize.
    induction (unquote group) as [| c s IH]; constructor;
      [reflexivity | exact IH]. }
  split.
  { intros c Hc. by apply kept_ascii. }
  unfold filename_of_disposition.
  change (findall_filename
            (ustr "filename=" ++ [QUOTE] ++ ustr "a b/c?.pdf" ++ [QUOTE]))
    with [ustr "a b/c?.pdf"].
  change (negb (Nat.eqb (length (ustr "filename=" ++ [QUOTE]
                                ++ ustr "a b/c?.pdf" ++ [QUOTE])) 0)
          && contains (ustr "filename")
               (ustr "filename=" ++ [QUOTE] ++ ustr "a b/c?.pdf"
                ++ [QUOTE]))
    with true.
  cbv iota beta.
  change (unquote (ustr "a b/c?.pdf")) with (ustr "a b/c?.pdf").
  rewrite sanitize_ascii; [reflexivity | exact Hdb |].
  repeat (constructor; [reflexivity |]). constructor.
Qed.

Lemma filename_resolution_witness :
  ascii_faithful (ucd sample_env) /\
  status (http_get sample_env (docstore_url (PStr (ustr "s1")))) = 200%Z /\
  findall_filename (quoted_filename "doc.pdf") = [ustr "doc.pdf"] /\
  run (get_filename_from_response_headers sample_env (PStr (ustr "s1")))
      fresh
    = (logged fresh [Requested (docstore_url (PStr (ustr "s1")))],
       Ok (Some (ustr "doc.pdf"))).
Proof.
  split; [exact ucd_excerpt_faithful |].
  split; [reflexivity |]. split; [reflexivity |].
  exact (proj1 (filename_resolution sample_env (PStr (ustr "s1"))
                  (quoted_filename "doc.pdf") (ustr "doc.pdf") [] fresh
                  ucd_excerpt_faithful eq_refl eq_refl eq_refl)).
Defined.

(** ** The attachment resolver *)

(** C7.  When the list of candidate records decodes, the resolver
    returns and does not raise: the value of [special_project_uuid] in
    the first record, [None] when the record has no such field, [None]
    for an empty list, and [None] whenever taking the field of the
    first candidate raises. *)
Theorem resolver_contract (env : environment) (claim_uuid body : pyval)
    (w : world) :
  json (http_get env (special_projects_url claim_uuid)) = Ok body ->
  exists r,
    run (get_special_project_file_uuid env claim_uuid) w
      = (logged w [Requested (special_projects_url claim_uuid)], Ok r) /\
    (forall fields rest, body = PList (PDict fields :: rest) ->
       r = default PNone
             (dict_lookup fields (ustr "special_project_uuid"))) /\
    (body = PList [] -> r = PNone) /\
    (forall e,
       result_bind (getitem_int body 0)
         (fun first => get_method first (ustr "special_project_uuid"))
         = Err e ->
       r = PNone).
Proof.
  intros Hjson.
  unfold get_special_project_file_uuid, session_get, response_json, emit,
    effect, suspend, arrive.
  cbn [bind run resp]. rewrite Hjson. cbn [lift bind run].
  destruct (truthy body) eqn:Htruthy.
  - destruct (getitem_int body 0) as [first | e0] eqn:Hfirst.
    + destruct (get_method first (ustr "special_project_uuid"))
        as [v | e1] eqn:Hget.
      * exists v. cbn [lift bind try_except run]. rewrite Hget.
        cbn [lift bind try_except run].
        split; [reflexivity | split; [| split]].
        -- intros fields rest ->. cbn in Hfirst. injection Hfirst as <-.
           cbn in Hget. destruct (dict_lookup fields _); cbn;
             congruence.
        -- intros ->. discriminate.
        -- cbn [result_bind]. rewrite Hget. discriminate.
      * exists PNone. cbn [lift bind try_except run]. rewrite Hget.
        cbn [lift bind try_except run].
        split; [reflexivity | split; [| split]].
        -- intros fields rest ->. cbn in Hfirst. injection Hfirst as <-.
           cbn in Hget. destruct (dict_lookup fields _); discriminate.
        -- intros ->. discriminate.
        -- reflexivity.
    + exists PNone. cbn [lift bind try_except run].
      split; [reflexivity | split; [| split]].
      * intros fields rest ->. discriminate.
      * intros ->. discriminate.
      * reflexivity.
  - exists PNone. cbn [run].
    split; [reflexivity | split; [| split]].
    + intros fields rest ->. discriminate.
    + reflexivity.
    + reflexivity.
Qed.

Lemma resolver_contract_witness :
  json (http_get sample_env (special_projects_url (PStr (ustr "u1"))))
    = Ok (PList [PDict [(ustr "special_project_uuid", PStr (ustr "p1"))]]) /\
  exists r,
    run (get_special_project_file_uuid sample_env (PStr (ustr "u1"))) fresh
      = (logged fresh [Requested (special_projects_url (PStr (ustr "u1")))],
         Ok r) /\
    r = PStr (ustr "p1").
Proof.
  split; [reflexivity |].
  destruct (resolver_contract sample_env (PStr (ustr "u1"))
              (PList [PDict [(ustr "special_project_uuid",
                              PStr (ustr "p1"))]])
              fresh eq_refl) as (r & Hrun & Hfield & _).
  exists r. split; [exact Hrun |].
  exact (Hfield _ _ eq_refl).
Defined.

(** ** The two UTF-8 decoders *)

(** Where the strict decoder accepts a body, the lenient one of
    [unquote] reads the same text. *)
Lemma utf_8_utf8_decode (bs : bytes) (s : str) :
  utf_8 bs = Ok s -> utf8_decode bs = s.
Proof.
  revert s. remember (length bs) as n eqn:Hn. revert bs Hn.
  induction n as [n IH] using lt_wf_ind. intros bs Hn s H. subst n.
  assert (Hrec : forall r c t,
            (length r < length bs)%nat ->
            decoded c (utf_8 r) = Ok t -> c :: utf8_decode r = t).
  { intros r c t Hlen Hdec. unfold decoded in Hdec.
    destruct (utf_8 r) as [s' | e] eqn:Hr; [| discriminate].
    injection Hdec as <-. f_equal. by eapply IH. }
  destruct bs as [| b0 r0]; [by injection H as <- |].
  cbn [utf_8 utf8_decode] in *.
  destruct (b0 <? 128); [apply Hrec; [cbn; lia | exact H] |].
  destruct (b0 <? 194); [discriminate |].
  destruct (b0 <? 224).
  { destruct r0 as [| b1 r1]; [discriminate |].
    destruct (continuation b1); [| discriminate].
    apply Hrec; [cbn; lia | exact H]. }
  destruct (b0 <? 240).
  { destruct r0 as [| b1 [| b2 r2]]; try discriminate.
    destruct (second_of_3 b0 b1); [| discriminate].
    destruct (continuation b2); [| discriminate].
    apply Hrec; [cbn; lia | exact H]. }
  destruct (b0 <? 245); [| discriminate].
  destruct r0 as [| b1 [| b2 [| b3 r3]]]; try discriminate.
  destruct (second_of_4 b0 b1); [| discriminate].
  destruct (continuation b2); [| discriminate].
  destruct (continuation b3); [| discriminate].
  apply Hrec; [cbn; lia | exact H].
Qed.

Example utf_8_samples :
  utf_8 (ustr "not found") = Ok (ustr "not found") /\
  utf_8 [208; 180] = Ok [1076] /\
  utf_8 [255] = Err UnicodeDecodeError /\
  utf_8 [237; 160; 128] = Err UnicodeDecodeError /\
  utf_8 [192; 128] = Err UnicodeDecodeError.
Proof. repeat split. Qed.

(** ** The file downloader *)

Lemma get_filename_from_response_headers_eq (env : environment)
    (store_uuid : pyval) :
  get_filename_from_response_headers env store_uuid
    = (emit (Requested (docstore_url store_uuid)) ;;;
       suspend ;;;
       Return (stored_name env store_uuid)).
Proof.
  unfold get_filename_from_response_headers, session_get, stored_name.
  cbn [bind emit effect suspend].
  destruct (status (http_get env (docstore_url store_uuid)) =? 200)%Z;
    [| reflexivity].
  destruct (headers_get _ _); reflexivity.
Qed.

Lemma write_events_app (t t' : list event) :
  write_events (t ++ t') = write_events t ++ write_events t'.
Proof. apply filter_app. Qed.

Lemma untouched_logged (w : world) (e : event) :
  is_write e = false -> untouched w (logged w [e]).
Proof.
  intros He. split; [reflexivity |]. cbn [logged trace].
  rewrite write_events_app. unfold write_events at 2.
  rewrite filter_cons, He. cbn. destruct (decide _); [discriminate |].
  by rewrite app_nil_r.
Qed.

Lemma untouched_made_dirs (w : world) : untouched w (made_dirs w).
Proof.
  split; [reflexivity |]. cbn [made_dirs trace].
  rewrite write_events_app. cbn. by rewrite app_nil_r.
Qed.

Lemma path_exists_created (w : world) (filename : str) :
  path_exists (created filename w) filename = true.
Proof.
  unfold path_exists. cbn [created files]. rewrite lookup_insert_eq.
  rewrite bool_decide_eq_true_2; [reflexivity | by eexists].
Qed.

Lemma path_exists_files (w w' : world) (filename : str) :
  files w' = files w -> path_exists w' filename = path_exists w filename.
Proof. intros H. unfold path_exists. by rewrite H. Qed.

Lemma path_exists_preserved (w w' : world) (filename : str) :
  preserved w w' ->
  path_exists w filename = true -> path_exists w' filename = true.
Proof.
  unfold preserved, path_exists. intros Hsub H.
  apply orb_true_iff in H as [H | H]; [| by rewrite H, orb_true_r].
  apply orb_true_iff in H as [H | H];
    [| by rewrite H, orb_true_r].
  apply bool_decide_eq_true in H as [content H].
  rewrite bool_decide_eq_true_2; [reflexivity |].
  exists content. by eapply lookup_weaken.
Qed.

Section DownloadSafe.

Variable env : environment.
Variable G : world -> world -> Prop.

Hypothesis G_refl : forall w, G w w.
Hypothesis G_trans : forall w1 w2 w3, G w1 w2 -> G w2 w3 -> G w1 w3.
Hypothesis G_quiet : forall w w', untouched w w' -> G w w'.
Hypothesis G_keeps : forall w w' filename,
  G w w' -> path_exists w filename = true -> path_exists w' filename = true.

Lemma seg_redirect_lines_E {R} (Q : R -> world -> Prop) (E : exn -> Prop)
    (hist : list (str * Z)) (k : unit -> coro R) (w : world) :
  (forall w', G w w' -> seg G Q E w' (k tt)) ->
  seg G Q E w
    (bind (fold_right
             (fun redirect rest =>
                print (MsgRedirect (fst redirect) (snd redirect)) ;;; rest)
             (Return tt) hist) k).
Proof.
  revert w. induction hist as [| h hist IH]; intros w Hk.
  - cbn. apply Hk, G_refl.
  - cbn [fold_right bind print emit effect seg].
    assert (Hstep : G w (logged w [Printed (MsgRedirect (fst h) (snd h))]))
      by (by apply G_quiet, untouched_logged).
    split; [exact Hstep |].
    apply IH. intros w' Hw'. apply Hk. by eapply G_trans.
Qed.

(** The name the downloader works with is the resolved name. *)
Lemma resolved_name_store (file_uuid body store_uuid : pyval) :
  (status (http_get env (download_url file_uuid)) =? 200)%Z = true ->
  json (http_get env (download_url file_uuid)) = Ok body ->
  getitem_str body (ustr "store_uuid") = Ok store_uuid ->
  resolved_name env file_uuid = stored_name env store_uuid.
Proof.
  intros Hstatus Hjson Hstore. unfold resolved_name.
  rewrite Hstatus, Hjson. cbn [result_bind]. by rewrite Hstore.
Qed.

Lemma description_usable (file_uuid body store_uuid : pyval) :
  json (http_get env (download_url file_uuid)) = Ok body ->
  getitem_str body (ustr "store_uuid") = Ok store_uuid ->
  ~ description_fails env file_uuid.
Proof.
  intros Hjson Hstore [_ [e He]]. rewrite Hjson in He.
  cbn [result_bind] in He. congruence.
Qed.

Lemma description_printable (file_uuid : pyval) :
  (status (http_get env (download_url file_uuid)) =? 200)%Z = true ->
  ~ diagnostics_fail env file_uuid.
Proof. intros H200 [Hstatus _]. cbn zeta in Hstatus. congruence. Qed.

(** A download task keeps to [G] as long as it may create the file it
    does not find; when it returns, the file it resolved exists.  It
    raises where its description cannot be used, where its diagnostics
    cannot be printed, and where the name of its file is refused. *)
Lemma download_pdf_safe (may_write : Prop) (E : exn -> Prop)
    (file_uuid : pyval) (w0 : world) :
  (forall w filename,
     resolved_name env file_uuid = Some filename ->
     G w0 w -> path_exists w filename = false ->
     if open_refused env filename then E OSError
     else G w (created filename w) /\ may_write) ->
  (description_fails env file_uuid -> forall e, E e) ->
  (diagnostics_fail env file_uuid -> forall e, E e) ->
  safe G (download_post env may_write file_uuid) E w0
    (download_pdf env file_uuid).
Proof.
  intros Hopen Hfails Hgarbled w Hw. unfold download_pdf, download_post.
  cbn zeta.
  unfold session_get. cbn [bind emit effect suspend seg].
  assert (Hstep : G w (logged w [Requested (download_url file_uuid)]))
    by (by apply G_quiet, untouched_logged).
  split; [exact Hstep |]. intros w1 Hw1.
  assert (H01 : G w0 w1) by eauto.
  cbn [resp arrive].
  destruct (status (http_get env (download_url file_uuid)) =? 200)%Z
    eqn:Hstatus.
  - unfold response_json. cbn [bind suspend seg resp arrive]. intros w2 Hw2.
    assert (H02 : G w0 w2) by eauto.
    destruct (json (http_get env (download_url file_uuid)))
      as [body | e] eqn:Hjson.
    2:{ cbn [lift bind seg]. apply Hfails. split; [exact Hstatus |].
        exists e. by rewrite Hjson. }
    cbn [lift bind].
    destruct (getitem_str body (ustr "store_uuid"))
      as [store_uuid | e] eqn:Hstore.
    2:{ cbn [lift bind seg]. apply Hfails. split; [exact Hstatus |].
        exists e. rewrite Hjson. exact Hstore. }
    pose proof (description_usable file_uuid body store_uuid Hjson Hstore)
      as Husable.
    pose proof (description_printable file_uuid Hstatus) as Hprintable.
    cbn [lift bind].
    rewrite get_filename_from_response_headers_eq.
    rewrite <- (resolved_name_store file_uuid body store_uuid
                  Hstatus Hjson Hstore).
    cbn [bind emit effect suspend seg].
    assert (Hstep2 : G w2 (logged w2 [Requested (docstore_url store_uuid)]))
      by (by apply G_quiet, untouched_logged).
    split; [exact Hstep2 |]. intros w3 Hw3.
    assert (H03 : G w0 w3) by eauto.
    destruct (resolved_name env file_uuid) as [filename |] eqn:Hname.
    + unfold makedirs, inspect, open_wb.
      cbn [bind effect seg].
      assert (Hmade : G w3 (made_dirs w3))
        by apply G_quiet, untouched_made_dirs.
      assert (H0m : G w0 (made_dirs w3)) by eauto.
      split; [exact Hmade |]. split; [apply G_refl |].
      destruct (path_exists (made_dirs w3) filename) eqn:Hfound.
      * cbn [bind print emit effect seg].
        split; [by apply G_quiet, untouched_logged |].
        split; [| split; [exact Husable | split; [exact Hprintable |
                                                 by left]]].
        intros filename' [= <-]. exact Hfound.
      * specialize (Hopen _ _ eq_refl H0m Hfound).
        destruct (open_refused env filename); [exact Hopen |].
        destruct Hopen as [Hcreate Hmay].
        cbn [effect bind seg]. split; [exact Hcreate |].
        cbn [copy_chunks content_read suspend bind seg unread drained
               length take Nat.eqb].
        intros w4 Hw4.
        split; [| split; [exact Husable | split; [exact Hprintable |
                                                 by right]]].
        intros filename' [= <-].
        apply (G_keeps _ _ _ Hw4), path_exists_created.
    + cbn [seg].
      split; [| split; [exact Husable | split; [exact Hprintable |
                                               by left]]].
      intros filename' [=].
  - assert (Hnone : resolved_name env file_uuid = None)
      by (unfold resolved_name; by rewrite Hstatus).
    assert (Husable : ~ description_fails env file_uuid).
    { intros [H200 _]. congruence. }
    cbn [bind print emit effect seg].
    split; [by apply G_quiet, untouched_logged |].
    unfold info_request_log, response_text.
    cbn [bind suspend seg resp arrive drained]. intros w2 Hw2.
    destruct (text (http_get env (download_url file_uuid)))
      as [body | e] eqn:Htext.
    2:{ cbn [lift bind seg]. apply Hgarbled. split; [exact Hstatus |].
        by exists e. }
    assert (Hprintable : ~ diagnostics_fail env file_uuid).
    { intros [_ [e He]]. cbn zeta in He. rewrite Htext in He.
      discriminate. }
    cbn [lift bind print emit effect seg resp drained].
    split; [by apply G_quiet, untouched_logged |].
    apply seg_redirect_lines_E. intros w3 Hw3. cbn [seg].
    split; [| split; [exact Husable | split; [exact Hprintable |
                                             by left]]].
    rewrite Hnone. intros filename' [=].
Qed.

Lemma download_post_stable (may_write : Prop) (file_uuid r : pyval)
    (w w' : world) :
  download_post env may_write file_uuid r w -> G w w' ->
  download_post env may_write file_uuid r w'.
Proof.
  intros (Hexists & Husable & Hprintable & Hr) Hww'.
  split; [| by repeat split]. intros filename Hname.
  eapply G_keeps; [exact Hww' |]. by apply Hexists.
Qed.

End DownloadSafe.

Lemma untouched_refl (w : world) : untouched w w.
Proof. by split. Qed.

Lemma untouched_trans (w1 w2 w3 : world) :
  untouched w1 w2 -> untouched w2 w3 -> untouched w1 w3.
Proof. intros [Hf Ht] [Hf' Ht']. split; congruence. Qed.

Lemma path_exists_untouched (w w' : world) (filename : str) :
  untouched w w' ->
  path_exists w filename = true -> path_exists w' filename = true.
Proof. intros [Hf _] H. by rewrite (path_exists_files w w' filename Hf). Qed.

Lemma preserved_refl (w : world) : preserved w w.
Proof. unfold preserved. reflexivity. Qed.

Lemma preserved_trans (w1 w2 w3 : world) :
  preserved w1 w2 -> preserved w2 w3 -> preserved w1 w3.
Proof. unfold preserved. intros H12 H23. by etrans. Qed.

Lemma untouched_preserved (w w' : world) : untouched w w' -> preserved w w'.
Proof. intros [Hf _]. unfold preserved. by rewrite Hf. Qed.

(** Creating a file that is not there leaves the others as they are. *)
Lemma preserved_created (w : world) (filename : str) :
  path_exists w filename = false -> preserved w (created filename w).
Proof.
  unfold path_exists, preserved. intros H.
  apply orb_false_iff in H as [H _]. apply orb_false_iff in H as [H _].
  apply bool_decide_eq_false in H.
  cbn [created files]. apply insert_subseteq.
  destruct (files w !! filename) eqn:Hlookup; [| reflexivity].
  exfalso. apply H. by eexists.
Qed.

Lemma no_download_counted (ids rs : list pyval) (env : environment)
    (w : world) :
  Forall2 (fun id r => download_post env False id r w) ids rs ->
  filter (fun sd => truthy sd = true) rs = [].
Proof.
  induction 1 as [| id r ids rs (_ & _ & _ & Hr) _ IH]; [reflexivity |].
  destruct Hr as [-> | [_ []]].
  rewrite filter_cons. cbn [truthy].
  destruct (decide _); [discriminate | exact IH].
Qed.

(** Whatever the schedule, the download stage leaves the files it finds
    as they are; when it returns, every name it resolved is the name of
    a file, no description failed and all diagnostics were printed. *)
Lemma download_stage_first (env : environment) (schedule : list nat)
    (ids : list pyval) (number : Z) (w : world) :
  preserved w (fst (run (download_all_files env schedule ids number) w)) /\
  (snd (run (download_all_files env schedule ids number) w) = Ok tt ->
   Forall (fun id =>
             (forall filename,
                resolved_name env id = Some filename ->
                path_exists
                  (fst (run (download_all_files env schedule ids number) w))
                  filename = true) /\
             ~ description_fails env id /\
             ~ diagnostics_fail env id) ids).
Proof.
  unfold download_all_files. rewrite run_bind, run_async_requester.
  assert (Hall : all_safe preserved (download_post env True)
                   (fun _ => True) w ids (map (download_pdf env) ids)).
  { unfold all_safe. apply Forall2_fmap_r, Forall_Forall2_diag.
    apply Forall_forall. intros id _.
    apply download_pdf_safe;
      eauto using preserved_refl, preserved_trans, untouched_preserved,
        path_exists_preserved.
    intros w1 filename _ _ Hfound.
    destruct (open_refused env filename); [exact I |].
    split; [by apply preserved_created | exact I]. }
  destruct (gather_sound preserved (download_post env True) (fun _ => True)
              preserved_refl preserved_trans
              (fun a r w w' H Hww' =>
                 download_post_stable env preserved
                   path_exists_preserved True a r w w' H Hww')
              schedule w ids _ Hall) as [Hg Hq].
  destruct (run (gather schedule (map (download_pdf env) ids)) w)
    as [w1 [rs | e]]; cbn [fst snd] in *.
  - cbn [run print emit effect fst snd].
    split; [exact Hg |]. intros _.
    assert (Hids : Forall (fun id =>
                             (forall filename,
                                resolved_name env id = Some filename ->
                                path_exists w1 filename = true) /\
                             ~ description_fails env id /\
                             ~ diagnostics_fail env id) ids).
    { clear -Hq.
      induction Hq
        as [| id r ids' rs' (Hexists & Husable & Hprintable & _) _ IH];
        constructor; [by repeat split | exact IH]. }
    eapply Forall_impl; [exact Hids |].
    intros id [Hexists Husable]. split; [| exact Husable].
    intros filename Hname.
    rewrite (path_exists_files w1 (logged w1 _) filename eq_refl).
    by apply Hexists.
  - split; [exact Hg | discriminate].
Qed.

(** Whatever the schedule, a download stage that finds every file it
    resolves changes no file and records no write; it returns and
    reports no download. *)
Lemma download_stage_second (env : environment) (schedule : list nat)
    (ids : list pyval) (number : Z) (w1 : world) :
  Forall (fun id =>
            (forall filename,
               resolved_name env id = Some filename ->
               path_exists w1 filename = true) /\
            ~ description_fails env id /\
            ~ diagnostics_fail env id) ids ->
  exists w2,
    run (download_all_files env schedule ids number) w1
      = (logged w2 [Printed (MsgSuccessfulDownloads 0 (length ids) number)],
         Ok tt) /\
    untouched w1 w2.
Proof.
  intros Hids.
  unfold download_all_files. rewrite run_bind, run_async_requester.
  assert (Hall : all_safe untouched (download_post env False)
                   (fun _ => False) w1 ids (map (download_pdf env) ids)).
  { unfold all_safe. apply Forall2_fmap_r, Forall_Forall2_diag.
    apply Forall_forall. intros id Hid.
    apply (proj1 (Forall_forall _ _) Hids) in Hid
      as (Hexists & Husable & Hprintable).
    apply download_pdf_safe;
      eauto using untouched_refl, untouched_trans, path_exists_untouched;
      try contradiction.
    intros w filename Hname Hw Hfound. exfalso.
    rewrite (path_exists_untouched w1 w filename Hw) in Hfound;
      [discriminate | by apply Hexists]. }
  destruct (gather_sound untouched (download_post env False)
              (fun _ => False) untouched_refl untouched_trans
              (fun a r w w' H Hww' =>
                 download_post_stable env untouched
                   path_exists_untouched False a r w w' H Hww')
              schedule w1 ids _ Hall) as [Hg Hq].
  destruct (run (gather schedule (map (download_pdf env) ids)) w1)
    as [w2 [rs | e]]; cbn [fst snd] in *; [| contradiction].
  exists w2. split; [| exact Hg].
  cbn [run print emit effect].
  by rewrite (no_download_counted ids rs env w2 Hq).
Qed.

(** A download whose name resolves, run alone: it looks for the file
    and either reports it or creates it, empty, unless the name is
    refused. *)
Lemma run_download_pdf_resolved (env : environment) (file_uuid : pyval)
    (filename : str) (w : world) :
  resolved_name env file_uuid = Some filename ->
  exists store_uuid,
    run (download_pdf env file_uuid) w =
    let w' := made_dirs (logged w [Requested (download_url file_uuid);
                                   Requested (docstore_url store_uuid)]) in
    if path_exists w filename
    then (logged w' [Printed (MsgAlreadyExists filename)], Ok PNone)
    else if open_refused env filename then (w', Err OSError)
    else (created filename w', Ok (PBool true)).
Proof.
  unfold resolved_name. intros Hname.
  destruct (status (http_get env (download_url file_uuid)) =? 200)%Z
    eqn:Hstatus; [| discriminate].
  destruct (json (http_get env (download_url file_uuid)))
    as [body | e] eqn:Hjson; [| discriminate].
  cbn [result_bind] in Hname.
  destruct (getitem_str body (ustr "store_uuid"))
    as [store_uuid | e] eqn:Hstore; [| discriminate].
  exists store_uuid.
  unfold download_pdf. cbn zeta. rewrite run_session_get.
  cbn [resp arrive]. rewrite Hstatus.
  unfold response_json, suspend. cbn [bind run resp arrive].
  rewrite Hjson. cbn [lift bind]. rewrite run_lift, Hstore.
  rewrite get_filename_from_response_headers_eq.
  cbn [bind emit effect suspend run]. rewrite Hname, logged_logged.
  unfold makedirs, inspect, open_wb. cbn [bind effect run app].
  change (path_exists (made_dirs (logged w ?evs)) filename)
    with (path_exists w filename).
  destruct (path_exists w filename); [reflexivity |].
  destruct (open_refused env filename); reflexivity.
Qed.

(** Whatever the schedule, a download stage in which no download fails
    returns and reports its count; a result of [True] comes from an
    identifier whose name resolved. *)
Lemma download_stage_returns (env : environment) (schedule : list nat)
    (ids : list pyval) (number : Z) (w : world) :
  Forall (fun id => ~ download_fails env w id) ids ->
  exists w' rs,
    run (download_all_files env schedule ids number) w
      = (logged w'
           [Printed (MsgSuccessfulDownloads
                       (length (filter (fun sd => truthy sd = true) rs))
                       (length ids) number)],
         Ok tt) /\
    preserved w w' /\
    Forall2 (fun id r =>
               download_post env (resolved_name env id <> None) id r w')
      ids rs.
Proof.
  intros Hids.
  unfold download_all_files. rewrite run_bind, run_async_requester.
  pose (Q := fun id => download_post env (resolved_name env id <> None) id).
  assert (Hall : all_safe preserved Q (fun _ => False) w ids
                   (map (download_pdf env) ids)).
  { unfold all_safe. apply Forall2_fmap_r, Forall_Forall2_diag.
    apply Forall_forall. intros id Hid.
    apply (proj1 (Forall_forall _ _) Hids) in Hid.
    apply download_pdf_safe;
      eauto using preserved_refl, preserved_trans, untouched_preserved,
        path_exists_preserved.
    - intros w1 filename Hname Hw1 Hfound.
      destruct (open_refused env filename) eqn:Hrefused.
      + apply Hid. right. right. exists filename.
        split; [exact Hname |]. split; [| exact Hrefused].
        destruct (path_exists w filename) eqn:Hw; [| reflexivity].
        by rewrite (path_exists_preserved w w1 filename Hw1 Hw) in Hfound.
      + split; [by apply preserved_created | congruence].
    - intros Hfails. exfalso. apply Hid. by left.
    - intros Hgarbled. exfalso. apply Hid. right. by left. }
  destruct (gather_sound preserved Q (fun _ => False)
              preserved_refl preserved_trans
              (fun a r w w' H Hww' =>
                 download_post_stable env preserved
                   path_exists_preserved _ a r w w' H Hww')
              schedule w ids _ Hall) as [Hg Hq].
  destruct (run (gather schedule (map (download_pdf env) ids)) w)
    as [w1 [rs | e]]; cbn [fst snd] in *; [| contradiction].
  exists w1, rs. cbn [run print emit effect]. by repeat split.
Qed.

(** An identifier whose name does not resolve is not counted, whatever
    else is downloaded with it. *)
Lemma unresolved_not_counted (env : environment) (schedule : list nat)
    (file_uuid : pyval) (others : list pyval) (number : Z) (w : world) :
  resolved_name env file_uuid = None ->
  ~ description_fails env file_uuid ->
  ~ diagnostics_fail env file_uuid ->
  Forall (fun id => ~ download_fails env w id) others ->
  exists w' n,
    run (download_all_files env schedule (file_uuid :: others) number) w
      = (logged w' [Printed (MsgSuccessfulDownloads n (S (length others))
                               number)],
         Ok tt) /\
    (n <= length others)%nat.
Proof.
  intros Hname Husable Hprintable Hothers.
  destruct (download_stage_returns env schedule (file_uuid :: others)
              number w) as (w' & rs & Hrun & _ & Hq).
  { constructor; [| exact Hothers].
    intros [H | [H | (filename & H & _)]]; [by apply Husable
                                             | by apply Hprintable
                                             | congruence]. }
  exists w', (length (filter (fun sd => truthy sd = true) rs)).
  split; [exact Hrun |].
  apply Forall2_cons_inv_l in Hq as (r & rs' & (_ & _ & _ & Hr) & Hq & ->).
  destruct Hr as [-> | [_ Hsome]]; [| congruence].
  rewrite filter_cons. cbn [truthy].
  destruct (decide _); [discriminate |].
  rewrite (Forall2_length _ _ _ Hq). apply length_filter.
Qed.

(** *** Downloads that fail or are skipped *)




(** C9.  When the storage resource names no file, because it sends no
    [Content-Disposition] header or one without the word [filename],
    the resolution gives [None] and the download is skipped in silence:
    the two requests are all that happens, nothing is printed, no file
    or directory is made, nothing is raised, and the item is not
    counted as a download, alone or among other identifiers none of
    which fails. *)
Theorem missing_filename_is_skipped (env : environment)
    (file_uuid body store_uuid : pyval) (w : world) :
  let r := http_get env (download_url file_uuid) in
  let meta := http_get env (docstore_url store_uuid) in
  status r = 200%Z ->
  json r = Ok body ->
  getitem_str body (ustr "store_uuid") = Ok store_uuid ->
  (headers_get (headers meta) (ustr "Content-Disposition") = None \/
   exists content_disposition,
     headers_get (headers meta) (ustr "Content-Disposition")
       = Some content_disposition /\
     contains (ustr "filename") content_disposition = false) ->
  (forall w',
     run (get_filename_from_response_headers env store_uuid) w'
       = (logged w' [Requested (docstore_url store_uuid)], Ok None)) /\
  run (download_pdf env file_uuid) w
    = (logged w [Requested (download_url file_uuid);
                 Requested (docstore_url store_uuid)],
       Ok PNone) /\
  truthy PNone = false /\
  (forall schedule number,
     run (download_all_files env schedule [file_uuid] number) w
       = (logged w [Requested (download_url file_uuid);
                    Requested (docstore_url store_uuid);
                    Printed (MsgSuccessfulDownloads 0 1 number)],
          Ok tt)) /\
  forall schedule others number,
    Forall (fun id => ~ download_fails env w id) others ->
    exists w' n,
      run (download_all_files env schedule (file_uuid :: others) number) w
        = (logged w' [Printed (MsgSuccessfulDownloads n (S (length others))
                                 number)],
           Ok tt) /\
      (n <= length others)%nat.
Proof.
  intros r meta Hstatus Hjson Hstore Hmeta.
  assert (Hname : forall w',
     run (get_filename_from_response_headers env store_uuid) w'
       = (logged w' [Requested (docstore_url store_uuid)], Ok None)).
  { intros w'. unfold get_filename_from_response_headers.
    rewrite run_session_get. fold meta.
    destruct (status meta =? 200)%Z; [| reflexivity].
    destruct Hmeta as [-> | (cd & -> & Hcd)]; [reflexivity |].
    unfold filename_of_disposition. rewrite Hcd, andb_false_r.
    reflexivity. }
  assert (Hrun : run (download_pdf env file_uuid) w
    = (logged w [Requested (download_url file_uuid);
                 Requested (docstore_url store_uuid)],
       Ok PNone)).
  { unfold download_pdf. cbn zeta. rewrite run_session_get. fold r.
    cbn [resp arrive]. rewrite Hstatus. cbn [Z.eqb Pos.eqb].
    unfold response_json, suspend. cbn [bind run resp arrive].
    rewrite Hjson. cbn [lift bind]. rewrite run_lift, Hstore.
    rewrite run_bind, Hname. cbn [run]. by rewrite logged_logged. }
  split; [exact Hname |].
  split; [exact Hrun |].
  split; [reflexivity |].
  split.
  { intros schedule number.
    rewrite run_download_all_files_single, Hrun. cbn [truthy].
    by rewrite logged_logged. }
  intros schedule others number Hothers.
  apply unresolved_not_counted; [| | | exact Hothers].
  - specialize (Hname w).
    rewrite get_filename_from_response_headers_eq in Hname.
    cbn [bind emit effect suspend run] in Hname.
    unfold resolved_name. fold r. rewrite Hstatus, Hjson.
    cbn [Z.eqb Pos.eqb result_bind]. rewrite Hstore. congruence.
  - by eapply description_usable.
  - apply description_printable. fold r. by rewrite Hstatus.
Qed.

Lemma missing_filename_is_skipped_witness :
  status (http_get sample_env (download_url (PStr (ustr "p2")))) = 200%Z /\
  headers_get
    (headers (http_get sample_env (docstore_url (PStr (ustr "s2")))))
    (ustr "Content-Disposition") = None /\
  run (download_pdf sample_env (PStr (ustr "p2"))) fresh
    = (logged fresh [Requested (download_url (PStr (ustr "p2")));
                     Requested (docstore_url (PStr (ustr "s2")))],
       Ok PNone).
Proof.
  split; [reflexivity |]. split; [reflexivity |].
  exact (proj1 (proj2
    (missing_filename_is_skipped sample_env (PStr (ustr "p2"))
       (PDict [(ustr "store_uuid", PStr (ustr "s2"))]) (PStr (ustr "s2"))
       fresh eq_refl eq_refl eq_refl (or_introl eq_refl)))).
Defined.

(** *** The copy loop and what it copies *)

(** With more rounds than the stream has bytes the loop of lines 69-73
    runs until the stream is exhausted: it appends the whole stream to
    the file, in chunks of 1 to 1024 bytes. *)
Lemma copy_chunks_exhausts (rounds : nat) (r : live_response)
    (filename : str) (w : world) :
  (length (unread r) < rounds)%nat ->
  exists chunks,
    run (copy_chunks rounds r filename) w
      = ({| files := alter (fun old => old ++ unread r) filename (files w);
            downloads_dir := downloads_dir w;
            trace := trace w ++ map (Written filename) chunks |},
         Ok tt) /\
    concat chunks = unread r /\
    Forall (fun chunk => (0 < length chunk <= 1024)%nat) chunks.
Proof.
  revert r w. induction rounds as [| rounds IH]; intros r w Hlen; [lia |].
  cbn [copy_chunks content_read suspend bind run].
  destruct (unread r) as [| b s] eqn:Hunread.
  - exists []. cbn. rewrite app_nil_r. split; [| by split].
    f_equal. destruct w as [fs d t]. cbn. f_equal.
    apply map_eq. intros k.
    destruct (decide (filename = k)) as [<- | Hne];
      [rewrite lookup_alter_eq | by rewrite lookup_alter_ne].
    destruct (fs !! filename); cbn; [by rewrite app_nil_r | reflexivity].
  - rewrite <- Hunread.
    assert (Hchunk : (0 < length (take 1024 (unread r)) <= 1024)%nat).
    { rewrite length_take, Hunread. cbn [length].
      split; [apply Nat.min_glb_lt; apply Nat.lt_0_succ
             | apply Nat.le_min_l]. }
    destruct (Nat.eqb_spec (length (take 1024 (unread r))) 0) as [E | _].
    { destruct Hchunk as [Hpos _]. rewrite E in Hpos.
      by apply Nat.lt_irrefl in Hpos. }
    cbn [write effect bind run].
    destruct (IH {| resp := resp r; unread := drop 1024 (unread r) |}
                (appended filename (take 1024 (unread r)) w))
      as (chunks & Hrun & Hconcat & Hsizes).
    { cbn [unread]. rewrite length_drop, Hunread. cbn [length] in *. lia. }
    exists (take 1024 (unread r) :: chunks).
    rewrite Hrun. cbn [unread appended files downloads_dir trace] in *.
    split; [| split].
    + f_equal. f_equal.
      * apply map_eq. intros k.
        destruct (decide (filename = k)) as [<- | Hne];
          [rewrite !lookup_alter_eq | by rewrite !lookup_alter_ne].
        destruct (files w !! filename) as [old |]; cbn; [| reflexivity].
        by rewrite <- app_assoc, take_drop.
      * cbn [map]. by rewrite <- app_assoc.
    + cbn [concat]. by rewrite Hconcat, take_drop.
    + by constructor.
Qed.

(** The body of the storage resource is never read: whatever it is, the
    download does the same. *)
Lemma download_ignores_stored_body (env : environment) (body : bytes)
    (file_uuid : pyval) (w : world) :
  run (download_pdf (restocked env body) file_uuid) w
    = run (download_pdf env file_uuid) w.
Proof.
  unfold download_pdf. cbn zeta. rewrite !run_session_get.
  change (http_get (restocked env body) (download_url file_uuid))
    with (http_get env (download_url file_uuid)).
  cbn [resp arrive].
  destruct (status (http_get env (download_url file_uuid)) =? 200)%Z;
    [| reflexivity].
  unfold response_json, suspend. cbn [bind run resp arrive].
  destruct (json (http_get env (download_url file_uuid))) as [v | e];
    [| reflexivity].
  cbn [lift bind]. rewrite !run_lift.
  destruct (getitem_str v (ustr "store_uuid")) as [store_uuid | e];
    [| reflexivity].
  rewrite !get_filename_from_response_headers_eq.
  reflexivity.
Qed.

(** A download that reports success has created an empty file: the
    stream it copies is the one it has read to the end for the
    description. *)
Lemma successful_download_is_empty (env : environment) (file_uuid : pyval)
    (w w' : world) :
  run (download_pdf env file_uuid) w = (w', Ok (PBool true)) ->
  exists filename,
    resolved_name env file_uuid = Some filename /\
    files w' = <[filename := []]> (files w) /\
    write_events (trace w') = write_events (trace w) ++ [Opened filename].
Proof.
  intros Hrun.
  destruct (resolved_name env file_uuid) as [filename |] eqn:Hname.
  - exists filename. split; [reflexivity |].
    destruct (run_download_pdf_resolved env file_uuid filename w Hname)
      as [store_uuid Hrun'].
    rewrite Hrun in Hrun'. cbn zeta in Hrun'.
    destruct (path_exists w filename); [discriminate |].
    destruct (open_refused env filename); [discriminate |].
    injection Hrun' as ->. split; [reflexivity |].
    cbn [created made_dirs logged trace].
    rewrite !write_events_app. cbn. by rewrite !app_nil_r.
  - exfalso.
    assert (Hsafe : safe untouched (download_post env False file_uuid)
                      (fun _ => True) w (download_pdf env file_uuid)).
    { apply download_pdf_safe;
        eauto using untouched_refl, untouched_trans, path_exists_untouched.
      intros w1 filename Hsome. congruence. }
    destruct (seg_run untouched (download_post env False) (fun _ => True)
                untouched_refl untouched_trans file_uuid
                (download_pdf env file_uuid) w
                (Hsafe w (untouched_refl w))) as [_ Hpost].
    rewrite Hrun in Hpost. cbn [snd] in Hpost.
    destruct Hpost as (_ & _ & _ & [Hr | [_ []]]). discriminate.
Qed.

(** C2, on the sample service.  The download of [p1] reports success and
    the file [doc.pdf] it has made is empty, while the storage resource
    [s1], whose header gave the name, serves the body [%PDF-1.7]. *)
Theorem download_writes_empty_file :
  stored_name sample_env (PStr (ustr "s1")) = Some (ustr "doc.pdf") /\
  content (http_get sample_env (docstore_url (PStr (ustr "s1"))))
    = ustr "%PDF-1.7" /\
  run (download_pdf sample_env (PStr (ustr "p1"))) fresh
    = (created (ustr "doc.pdf")
         (made_dirs
            (logged fresh [Requested (download_url (PStr (ustr "p1")));
                           Requested (docstore_url (PStr (ustr "s1")))])),
       Ok (PBool true)) /\
  files (fst (run (download_pdf sample_env (PStr (ustr "p1"))) fresh))
    !! ustr "doc.pdf" = Some [].
Proof. repeat split; vm_compute; reflexivity. Qed.

(** *** Running the stage twice *)

(** C6.  A download stage that has run to its end has left every file
    it found as it was; run again on the same identifiers, under any
    schedule, it changes no file, opens and writes none, and reports no
    download.  A download that finds the file of its name says so,
    returns [None] and leaves the file alone. *)
Theorem download_stage_idempotent (env : environment) (ids : list pyval)
    (schedule1 schedule2 : list nat) (number : Z) (w w1 : world) :
  run (download_all_files env schedule1 ids number) w = (w1, Ok tt) ->
  preserved w w1 /\
  (exists w2,
     run (download_all_files env schedule2 ids number) w1
       = (logged w2 [Printed (MsgSuccessfulDownloads 0 (length ids) number)],
          Ok tt) /\
     files w2 = files w1 /\
     write_events (trace w2) = write_events (trace w1)) /\
  (forall id filename,
     In id ids -> resolved_name env id = Some filename ->
     path_exists w1 filename = true) /\
  (forall id filename w',
     resolved_name env id = Some filename ->
     path_exists w' filename = true ->
     exists store_uuid,
       run (download_pdf env id) w'
         = (logged (made_dirs (logged w' [Requested (download_url id);
                                          Requested (docstore_url store_uuid)]))
              [Printed (MsgAlreadyExists filename)],
            Ok PNone)) /\
  truthy PNone = false.
Proof.
  intros Hrun.
  destruct (download_stage_first env schedule1 ids number w) as [Hkept Hids].
  rewrite Hrun in Hkept, Hids. cbn [fst snd] in Hkept, Hids.
  specialize (Hids eq_refl).
  split; [exact Hkept |].
  split.
  { destruct (download_stage_second env schedule2 ids number w1 Hids)
      as (w2 & Hrun2 & Hfiles & Htrace).
    by exists w2. }
  split.
  { intros id filename Hid Hname.
    apply list_elem_of_In in Hid.
    by apply (proj1 (Forall_forall _ _) Hids id Hid). }
  split; [| reflexivity].
  intros id filename w' Hname Hfound.
  destruct (run_download_pdf_resolved env id filename w' Hname)
    as [store_uuid Hrun'].
  exists store_uuid. rewrite Hrun'. cbn zeta. by rewrite Hfound.
Qed.

Lemma download_stage_idempotent_witness :
  run (download_all_files sample_env [] [PStr (ustr "p1")] 1) fresh
    = (fst (run (download_all_files sample_env [] [PStr (ustr "p1")] 1)
              fresh),
       Ok tt) /\
  exists w2,
    run (download_all_files sample_env [0; 0]%nat [PStr (ustr "p1")] 1)
        (fst (run (download_all_files sample_env [] [PStr (ustr "p1")] 1)
                fresh))
      = (logged w2 [Printed (MsgSuccessfulDownloads 0 1 1)], Ok tt) /\
    files w2
      = files (fst (run (download_all_files sample_env []
                           [PStr (ustr "p1")] 1) fresh)) /\
    write_events (trace w2)
      = write_events
          (trace (fst (run (download_all_files sample_env []
                              [PStr (ustr "p1")] 1) fresh))).
Proof.
  assert (Hrun : run (download_all_files sample_env [] [PStr (ustr "p1")] 1)
                   fresh
                 = (fst (run (download_all_files sample_env []
                                [PStr (ustr "p1")] 1) fresh), Ok tt))
    by (vm_compute; reflexivity).
  split; [exact Hrun |].
  exact (proj1 (proj2
    (download_stage_idempotent sample_env [PStr (ustr "p1")] []
       [0; 0]%nat 1 fresh _ Hrun))).
Defined.

(** ** Deduplication *)

(** C3, on the sample service, with a set that iterates [None] first.
    The travel sheets [u2] and [u1] resolve to [None] and [p1]; under
    every schedule the list handed to the download stage is [None] and
    [p1]: the last element is not [None], so nothing is dropped. *)
Theorem sentinel_survives_deduplication (schedule : list nat) (w : world) :
  set_order sample_env [PNone; PStr (ustr "p1")]
    = [PNone; PStr (ustr "p1")] /\
  snd (run (get_all_file_uuids sample_env schedule
              [PStr (ustr "u2"); PStr (ustr "u1")] 1) w)
    = Ok [PNone; PStr (ustr "p1")].
Proof.
  split; [reflexivity |].
  unfold get_all_file_uuids. rewrite run_bind, run_async_requester.
  pose (G := fun _ _ : world => True).
  pose (Q := fun (claim_uuid r : pyval) (_ : world) =>
               r = if named "u1" claim_uuid then PStr (ustr "p1")
                   else PNone).
  pose (E := fun _ : exn => False).
  assert (Hall : all_safe G Q E w [PStr (ustr "u2"); PStr (ustr "u1")]
                   (map (get_special_project_file_uuid sample_env)
                      [PStr (ustr "u2"); PStr (ustr "u1")])).
  { repeat constructor; intros w1 _; vm_compute; auto. }
  destruct (gather_sound G Q E (fun _ => I) (fun _ _ _ _ _ => I)
              (fun _ _ _ _ H _ => H) schedule w _ _ Hall) as [_ Hq].
  destruct (run (gather schedule _) w) as [w1 [rs | e]];
    cbn [fst snd] in *; [| contradiction].
  apply Forall2_cons_inv_l in Hq as (r1 & rs1 & Hr1 & Hq & ->).
  apply Forall2_cons_inv_l in Hq as (r2 & rs2 & Hr2 & Hq & ->).
  apply Forall2_nil_inv_l in Hq as ->.
  unfold Q in Hr1, Hr2. subst r1 r2. vm_compute. reflexivity.
Qed.

(** ** The listing fetcher *)

Lemma listing_limits_app (t t' : list event) :
  listing_limits (t ++ t') = listing_limits t ++ listing_limits t'.
Proof.
  induction t as [| e t IH]; [reflexivity |].
  destruct e as [[limit | | | ] | | | | ]; cbn; by rewrite ?IH.
Qed.

(** A full page restarts the fetch, and the restart asks for a thousand
    records again: the doubled limit is passed on as [number]. *)
Lemma full_page_restarts (env : environment) (depth : nat)
    (number limit : Z) (d : list (str * pyval)) (page : list pyval)
    (w : world) :
  json (http_get env (claims_url limit)) = Ok (PDict d) ->
  dict_lookup d (ustr "data") = Some (PList page) ->
  Z.of_nat (length page) = limit ->
  run (get_all_travel_sheets_uuids env (S depth) number limit) w
    = run (get_all_travel_sheets_uuids env depth (limit * 2) 1000)
        (logged w [Requested (claims_url limit)]).
Proof.
  intros Hjson Hdata Hlen.
  cbn [get_all_travel_sheets_uuids]. rewrite run_session_get.
  unfold response_json, suspend.
  cbn [bind try_except resp arrive]. rewrite Hjson.
  cbn [lift bind try_except run getitem_str]. rewrite Hdata.
  cbn [lift bind run py_len]. rewrite Hlen, Z.eqb_refl. reflexivity.
Qed.

(** A page of another size ends the fetch: the identifiers of the page
    are returned in the order of the page. *)
Lemma short_page_returns (env : environment) (depth : nat)
    (number limit : Z) (d : list (str * pyval)) (page uuids : list pyval)
    (w : world) :
  json (http_get env (claims_url limit)) = Ok (PDict d) ->
  dict_lookup d (ustr "data") = Some (PList page) ->
  Z.of_nat (length page) <> limit ->
  collect_uuids page [] = Ok uuids ->
  run (get_all_travel_sheets_uuids env (S depth) number limit) w
    = (logged w [Requested (claims_url limit); Printed (MsgReceivedAll number)],
       Ok uuids).
Proof.
  intros Hjson Hdata Hlen Hcollect.
  cbn [get_all_travel_sheets_uuids]. rewrite run_session_get.
  unfold response_json, suspend.
  cbn [bind try_except resp arrive]. rewrite Hjson.
  cbn [lift bind try_except run getitem_str]. rewrite Hdata.
  cbn [lift bind run py_len py_iter].
  destruct (Z.eqb_spec (Z.of_nat (length page)) limit) as [E | _];
    [contradiction |].
  cbn [lift bind run py_iter]. rewrite Hcollect.
  cbn [lift bind run print emit effect]. by rewrite logged_logged.
Qed.

Lemma thousand_page :
  Z.of_nat (length (take (Z.to_nat 1000) thousand_sheets)) = 1000%Z.
Proof. vm_compute. reflexivity. Qed.

(** C1, on the service that holds a thousand travel sheets.  The first
    page is full, so the fetch restarts; every request asks for 1000
    records again, none for 2000, each page is full again, and the
    fetch ends when the interpreter refuses to nest calls any deeper.
    A request for 2000 records would have been answered by a page of
    1000 and ended the fetch. *)
Theorem listing_restart_keeps_limit (depth : nat) (number : Z) (w : world) :
  let out :=
    run (get_all_travel_sheets_uuids full_listing_env depth number 1000) w in
  snd out = Err RecursionError /\
  listing_limits (trace (fst out))
    = listing_limits (trace w) ++ repeat 1000%Z depth /\
  py_len (PList (take (Z.to_nat 2000) thousand_sheets)) = Ok 1000%Z.
Proof.
  cbn zeta.
  split; [| split]; [| | vm_compute; reflexivity].
  - revert number w. induction depth as [| depth IH]; intros number w.
    + reflexivity.
    + rewrite (full_page_restarts full_listing_env depth number 1000
                 [(ustr "data",
                   PList (take (Z.to_nat 1000) thousand_sheets))]
                 (take (Z.to_nat 1000) thousand_sheets));
        [apply IH | reflexivity | reflexivity | exact thousand_page].
  - revert number w. induction depth as [| depth IH]; intros number w.
    + cbn. by rewrite app_nil_r.
    + rewrite (full_page_restarts full_listing_env depth number 1000
                 [(ustr "data",
                   PList (take (Z.to_nat 1000) thousand_sheets))]
                 (take (Z.to_nat 1000) thousand_sheets));
        [| reflexivity | reflexivity | exact thousand_page].
      rewrite IH. cbn [logged trace]. rewrite listing_limits_app.
      cbn [listing_limits repeat]. by rewrite <- app_assoc.
Qed.

(** ** The account orchestrator *)

Lemma gather_nil {R} (schedule : list nat) :
  gather schedule ([] : list (coro R)) = Return [].
Proof. destruct schedule; reflexivity. Qed.

(** C10.  When the listing yields no travel-sheet identifier, the
    resolver fan-out returns an empty list, the last element of the
    empty list is asked for, and [IndexError] ends the processing of
    the account: the count of documents is not printed and nothing is
    downloaded. *)
Theorem empty_listing_aborts (env : environment) (depth : nat)
    (schedule1 schedule2 : list nat) (number : Z) (w w1 : world) :
  order_faithful env ->
  run (get_all_travel_sheets_uuids env depth number 1000)
      (logged w [Printed (MsgStart number)]) = (w1, Ok []) ->
  run (get_all_file_uuids env schedule1 [] number) w1
    = (logged w1 [Printed (MsgSuccessfulRequests 0 0 number)],
       Err IndexError) /\
  run (start_parser env depth schedule1 schedule2 number) w
    = (logged w1 [Printed (MsgSuccessfulRequests 0 0 number)],
       Err IndexError).
Proof.
  intros Horder Hlisting.
  assert (Hempty : set_order env [] = []).
  { apply Permutation_nil. symmetry. apply Horder. }
  assert (Hresolve :
    run (get_all_file_uuids env schedule1 [] number) w1
    = (logged w1 [Printed (MsgSuccessfulRequests 0 0 number)],
       Err IndexError)).
  { unfold get_all_file_uuids, async_requester, suspend.
    cbn [fold_left bind]. rewrite gather_nil. cbn [bind run].
    rewrite run_print. unfold list_of_set. cbn [forallb distinct].
    rewrite Hempty. reflexivity. }
  split; [exact Hresolve |].
  unfold start_parser. rewrite run_print, run_bind, Hlisting.
  rewrite run_bind, Hresolve. reflexivity.
Qed.

Lemma empty_listing_aborts_witness :
  order_faithful empty_listing_env /\
  run (get_all_travel_sheets_uuids empty_listing_env 10 1 1000)
      (logged fresh [Printed (MsgStart 1)])
    = (logged fresh [Printed (MsgStart 1); Requested (claims_url 1000);
                     Printed (MsgReceivedAll 1)],
       Ok []) /\
  run (start_parser empty_listing_env 10 [] [] 1) fresh
    = (logged fresh [Printed (MsgStart 1); Requested (claims_url 1000);
                     Printed (MsgReceivedAll 1);
                     Printed (MsgSuccessfulRequests 0 0 1)],
       Err IndexError).
Proof.
  assert (Horder : order_faithful empty_listing_env)
    by (intros l; reflexivity).
  split; [exact Horder |]. split; [reflexivity |].
  exact (proj2 (empty_listing_aborts empty_listing_env 10 [] [] 1 fresh _
                  Horder eq_refl)).
Defined.

(** * Further properties *)

(** ** The listing fetcher, one call at a time *)

(** One call of [get_all_travel_sheets_uuids] that the interpreter
    allows: what it does before it returns, raises or calls itself. *)
Lemma get_all_travel_sheets_uuids_step (env : environment) (depth : nat)
    (number limit : Z) (w : world) :
  run (get_all_travel_sheets_uuids env (S depth) number limit) w =
  let r := http_get env (claims_url limit) in
  let w1 := logged w [Requested (claims_url limit)] in
  match json r with
  | Err ContentTypeError =>
    match text r with
    | Ok body =>
      (logged w1 (diagnostic_lines env (claims_url limit) r body),
       Err UnboundLocalError)
    | Err e => (w1, Err e)
    end
  | Err e => (w1, Err e)
  | Ok body =>
    match getitem_str body (ustr "data") with
    | Err e => (w1, Err e)
    | Ok travel_sheets =>
      match py_len travel_sheets with
      | Err e => (w1, Err e)
      | Ok n =>
        if (n =? limit)%Z
        then run (get_all_travel_sheets_uuids env depth (limit * 2) 1000) w1
        else
          match result_bind (py_iter travel_sheets)
                  (fun items => collect_uuids items []) with
          | Err e => (w1, Err e)
          | Ok uuids => (logged w1 [Printed (MsgReceivedAll number)], Ok uuids)
          end
      end
    end
  end.
Proof.
  cbn zeta. cbn [get_all_travel_sheets_uuids]. rewrite run_session_get.
  unfold response_json, suspend.
  cbn [bind try_except resp arrive].
  destruct (json (http_get env (claims_url limit))) as [body | e].
  - cbn [lift bind try_except run].
    destruct (getitem_str body (ustr "data")) as [travel_sheets | e];
      [| reflexivity].
    cbn [lift bind run].
    destruct (py_len travel_sheets) as [n | e]; [| reflexivity].
    cbn [lift bind run].
    destruct (n =? limit)%Z; [reflexivity |].
    destruct (py_iter travel_sheets) as [items | e]; [| reflexivity].
    cbn [lift bind run result_bind].
    destruct (collect_uuids items []) as [uuids | e]; [| reflexivity].
    cbn [lift bind run print emit effect]. by rewrite logged_logged.
  - destruct e; try reflexivity.
    cbn [lift bind try_except].
    change (try_except (Raise ContentTypeError) ?h) with (h ContentTypeError).
    cbn beta iota. cbn [run]. rewrite run_bind, run_info_request_log.
    cbn [resp arrive].
    by destruct (text (http_get env (claims_url limit))).
Qed.



(** A login page that is not UTF-8: the request is all that is left of
    the fetch. *)
Example garbled_login_is_not_logged :
  json (http_get garbled_login_env (claims_url 1000)) = Err ContentTypeError /\
  run (get_all_travel_sheets_uuids garbled_login_env 1 7 1000) fresh
    = (logged fresh [Requested (claims_url 1000)], Err UnicodeDecodeError).
Proof. split; reflexivity. Qed.

Lemma collect_uuids_records (page uuids : list pyval) :
  collect_uuids page uuids =
  if forallb is_record page then Ok (uuids ++ omap uuid_of page)
  else Err AttributeError.
Proof.
  revert uuids. induction page as [| sheet page IH]; intros uuids.
  - cbn. by rewrite app_nil_r.
  - destruct sheet as [| b | n | s | l | d]; try reflexivity.
    change (collect_uuids (PDict d :: page) uuids)
      with (match get_method (PDict d) (ustr "uuid") with
            | Ok uuid =>
              collect_uuids page
                (if is_none uuid then uuids else uuids ++ [uuid])
            | Err e => Err e
            end).
    change (omap uuid_of (PDict d :: page))
      with (match uuid_of (PDict d) with
            | Some y => y :: omap uuid_of page
            | None => omap uuid_of page
            end).
    change (forallb is_record (PDict d :: page))
      with (forallb is_record page).
    unfold get_method, uuid_of.
    destruct (dict_lookup d (ustr "uuid")) as [uuid |]; rewrite IH.
    + destruct (forallb is_record page); [| reflexivity].
      destruct (is_none uuid); [reflexivity |].
      by rewrite <- app_assoc.
    + reflexivity.
Qed.

(** X2 (lines 138-159).  A page whose size is not the limit ends the fetch
    after one request.  When every element of the page is a record, the
    result is the [uuid] of each record that has one other than [None], in
    the order of the page, and the completion line is printed; when an
    element is not a record, the fetch raises [AttributeError] and prints
    nothing. *)
Theorem listing_returns_uuids (env : environment) (depth : nat)
    (number limit : Z) (body : pyval) (page : list pyval) (w : world) :
  json (http_get env (claims_url limit)) = Ok body ->
  getitem_str body (ustr "data") = Ok (PList page) ->
  Z.of_nat (length page) <> limit ->
  run (get_all_travel_sheets_uuids env (S depth) number limit) w =
  if forallb is_record page
  then (logged w [Requested (claims_url limit);
                  Printed (MsgReceivedAll number)],
        Ok (omap uuid_of page))
  else (logged w [Requested (claims_url limit)], Err AttributeError).
Proof.
  intros Hjson Hdata Hlen. rewrite get_all_travel_sheets_uuids_step.
  cbn zeta. rewrite Hjson, Hdata. cbn [py_len py_iter result_bind].
  destruct (Z.eqb_spec (Z.of_nat (length page)) limit) as [E | _];
    [contradiction |].
  rewrite collect_uuids_records.
  destruct (forallb is_record page); [| reflexivity].
  cbn [app]. by rewrite logged_logged.
Qed.

Lemma listing_returns_uuids_witness :
  json (http_get sample_env (claims_url 1000))
    = Ok (PDict [(ustr "data",
                  PList [travel_sheet "u1"; travel_sheet "u2";
                         travel_sheet "u3"])]) /\
  run (get_all_travel_sheets_uuids sample_env 1 7 1000) fresh
    = (logged fresh [Requested (claims_url 1000);
                     Printed (MsgReceivedAll 7)],
       Ok [PStr (ustr "u1"); PStr (ustr "u2"); PStr (ustr "u3")]).
Proof.
  split; [reflexivity |].
  exact (listing_returns_uuids sample_env 0 7 1000 _
           [travel_sheet "u1"; travel_sheet "u2"; travel_sheet "u3"]
           fresh eq_refl eq_refl ltac:(discriminate)).
Defined.

Lemma listing_limits_prints (ms : list message) :
  listing_limits (map Printed ms) = [].
Proof. induction ms as [| m ms IH]; [reflexivity | exact IH]. Qed.

Lemma listing_limits_diagnostics (env : environment) (u : url)
    (r : response) (body : str) :
  listing_limits (diagnostic_lines env u r body) = [].
Proof.
  unfold diagnostic_lines, redirect_lines. cbn [listing_limits].
  induction (history r) as [| h hist IH]; [reflexivity | exact IH].
Qed.

(** X3 (lines 138-159).  Whatever the service answers, the first request of
    a fetch asks for the limit it was called with and every later one for
    exactly 1000 records, whatever the limit of the request before it. *)
Theorem listing_never_asks_more (env : environment) (depth : nat)
    (number limit : Z) (w : world) :
  exists k,
    (k <= depth)%nat /\
    listing_limits
      (trace (fst (run (get_all_travel_sheets_uuids env depth number limit)
                     w)))
    = listing_limits (trace w)
      ++ match depth with
         | O => []
         | S _ => limit :: repeat 1000%Z k
         end.
Proof.
  revert number limit w.
  induction depth as [| depth IH]; intros number limit w.
  - exists 0%nat. cbn. by rewrite app_nil_r.
  - rewrite get_all_travel_sheets_uuids_step. cbn zeta.
    assert (Hone : forall (es : list event),
              listing_limits es = [] ->
              listing_limits
                (trace (logged (logged w [Requested (claims_url limit)]) es))
              = listing_limits (trace w) ++ limit :: repeat 1000%Z 0).
    { intros es Hes. cbn [logged trace]. rewrite !listing_limits_app, Hes.
      cbn. by rewrite app_nil_r. }
    assert (Hzero : listing_limits
                      (trace (logged w [Requested (claims_url limit)]))
                    = listing_limits (trace w) ++ limit :: repeat 1000%Z 0).
    { cbn [logged trace]. by rewrite listing_limits_app. }
    destruct (json (http_get env (claims_url limit))) as [body | e].
    2:{ exists 0%nat. split; [lia |].
        destruct e; cbn [fst]; try exact Hzero.
        destruct (text _); cbn [fst]; [| exact Hzero].
        apply Hone, listing_limits_diagnostics. }
    destruct (getitem_str body (ustr "data")) as [travel_sheets | e];
      [| exists 0%nat; split; [lia | exact Hzero]].
    destruct (py_len travel_sheets) as [n | e];
      [| exists 0%nat; split; [lia | exact Hzero]].
    destruct (n =? limit)%Z.
    + destruct (IH (limit * 2)%Z 1000%Z
                  (logged w [Requested (claims_url limit)])) as (k & Hk & Hl).
      rewrite Hl. cbn [logged trace]. rewrite listing_limits_app.
      cbn [listing_limits]. rewrite <- app_assoc. cbn [app].
      destruct depth as [| depth'].
      * exists 0%nat. split; [lia | reflexivity].
      * exists (S k). split; [lia | reflexivity].
    + exists 0%nat. split; [lia |].
      destruct (result_bind _ _) as [uuids | e]; cbn [fst];
        [| exact Hzero].
      apply (Hone [Printed (MsgReceivedAll number)]). reflexivity.
Qed.

(** X4 (lines 138-159).  A service that answers the request for 1000
    records with 1000 records never lets the fetch return: every restart
    sends the same request, gets the same page, and the fetch ends with
    [RecursionError] when the interpreter allows no deeper call. *)
Theorem full_first_page_never_returns (env : environment) (depth : nat)
    (number : Z) (body travel_sheets : pyval) (w : world) :
  json (http_get env (claims_url 1000)) = Ok body ->
  getitem_str body (ustr "data") = Ok travel_sheets ->
  py_len travel_sheets = Ok 1000%Z ->
  run (get_all_travel_sheets_uuids env depth number 1000) w
    = (logged w (repeat (Requested (claims_url 1000)) depth),
       Err RecursionError).
Proof.
  intros Hjson Hdata Hlen. revert number w.
  induction depth as [| depth IH]; intros number w.
  - cbn. by rewrite logged_nil.
  - rewrite get_all_travel_sheets_uuids_step. cbn zeta.
    rewrite Hjson, Hdata, Hlen, Z.eqb_refl, IH, logged_logged.
    reflexivity.
Qed.

Lemma full_first_page_never_returns_witness :
  py_len (PList (take (Z.to_nat 1000) thousand_sheets)) = Ok 1000%Z /\
  run (get_all_travel_sheets_uuids full_listing_env 3 7 1000) fresh
    = (logged fresh [Requested (claims_url 1000);
                     Requested (claims_url 1000);
                     Requested (claims_url 1000)],
       Err RecursionError).
Proof.
  assert (Hlen : py_len (PList (take (Z.to_nat 1000) thousand_sheets))
                 = Ok 1000%Z) by (vm_compute; reflexivity).
  split; [exact Hlen |].
  exact (full_first_page_never_returns full_listing_env 3 7 _ _ fresh
           eq_refl eq_refl Hlen).
Defined.

(** ** The fan-out driver when an operation raises *)

Lemma seg_of_outcomes {R} (P : R -> Prop) (E : exn -> Prop) (c : coro R)
    (w : world) :
  (forall r, may_return c r -> P r) ->
  (forall e, may_raise c e -> E e) ->
  seg (fun _ _ => True) (fun r _ => P r) E w c.
Proof.
  revert w. induction c as [r | e | f k IH | k IH]; intros w Hret Hexn;
    cbn in *.
  - by apply Hret.
  - by apply Hexn.
  - split; [exact I |]. apply IH.
    + intros r Hr. apply Hret. by exists w.
    + intros e He. apply Hexn. by exists w.
  - intros w' _. by apply IH.
Qed.

Lemma always_raises_never_returns {R} (c : coro R) (r : R) :
  always_raises c -> ~ may_return c r.
Proof.
  induction c as [r' | e | f k IH | k IH]; cbn; intros Hraises Hret.
  - exact Hraises.
  - exact Hret.
  - destruct Hret as [w Hw]. by apply (IH w).
  - by apply IH.
Qed.

(** X5 (lines 80-90).  When the operation on one of the arguments raises on
    every path, the driver raises, under every schedule and whatever the
    other operations do; the exception is one that an operation of the
    batch can raise.  No list of partial results is returned. *)
Theorem async_requester_fails_as_a_whole {A R} (callback : A -> coro R)
    (arg_list : list A) (arg : A) (schedule : list nat) (w : world) :
  In arg arg_list ->
  always_raises (callback arg) ->
  exists e,
    snd (run (async_requester schedule arg_list callback) w) = Err e /\
    exists arg', In arg' arg_list /\ may_raise (callback arg') e.
Proof.
  intros Harg Hraises. rewrite run_async_requester.
  pose (G := fun _ _ : world => True).
  pose (Q := fun (a : A) (r : R) (_ : world) => may_return (callback a) r).
  pose (E := fun e : exn =>
               exists arg', In arg' arg_list /\ may_raise (callback arg') e).
  assert (Hall : all_safe G Q E w arg_list (map callback arg_list)).
  { unfold all_safe. apply Forall2_fmap_r, Forall_Forall2_diag.
    apply Forall_forall. intros a Ha w' _.
    apply (seg_of_outcomes (may_return (callback a)) E); [auto |].
    intros e He. exists a. split; [by apply list_elem_of_In | exact He]. }
  destruct (gather_sound G Q E (fun _ => I) (fun _ _ _ _ _ => I)
              (fun _ _ _ _ H _ => H) schedule w arg_list _ Hall)
    as [_ Hresults].
  destruct (snd (run (gather schedule (map callback arg_list)) w))
    as [results | e].
  - exfalso. apply list_elem_of_In, list_elem_of_lookup in Harg as [i Hi].
    destruct (Forall2_lookup_l _ _ _ _ _ Hresults Hi) as (r & _ & Hr).
    by apply (always_raises_never_returns (callback arg) r).
  - by exists e.
Qed.

Lemma async_requester_fails_as_a_whole_witness :
  In 1%nat [0; 1; 2]%nat /\
  always_raises (failing KeyError 1) /\
  exists e,
    snd (run (async_requester [0; 0; 2; 1]%nat [0; 1; 2]%nat
                (failing KeyError)) fresh) = Err e /\
    exists arg',
      In arg' [0; 1; 2]%nat /\ may_raise (failing KeyError arg') e.
Proof.
  assert (Hin : In 1%nat [0; 1; 2]%nat) by (right; left; reflexivity).
  split; [exact Hin |]. split; [exact I |].
  exact (async_requester_fails_as_a_whole (failing KeyError) [0; 1; 2]%nat
           1%nat [0; 0; 2; 1]%nat fresh Hin I).
Defined.

(** ** The download stage as a whole *)




(** The two failures that are not in the description, each on a
    service of its own: a refusal whose body is not UTF-8, and a name of
    more than 255 characters on a machine that allows no more. *)
Example downloads_that_raise :
  snd (run (download_all_files sample_env []
              [PStr (ustr "p1"); PStr (ustr "p2")] 1) fresh) = Ok tt /\
  diagnostics_fail bad_gateway_env (PStr (ustr "p1")) /\
  snd (run (download_all_files bad_gateway_env []
              [PStr (ustr "p1"); PStr (ustr "p2")] 1) fresh)
    = Err UnicodeDecodeError /\
  open_fails long_name_env fresh (PStr (ustr "p1")) /\
  snd (run (download_all_files long_name_env []
              [PStr (ustr "p1"); PStr (ustr "p2")] 1) fresh)
    = Err OSError.
Proof.
  split; [vm_compute; reflexivity |].
  split; [| split; [| split]].
  - split; [reflexivity |]. by exists UnicodeDecodeError.
  - vm_compute. reflexivity.
  - exists long_name. repeat split; vm_compute; reflexivity.
  - vm_compute. reflexivity.
Qed.

Lemma opened_names_app (t t' : list event) :
  opened_names (t ++ t') = opened_names t ++ opened_names t'.
Proof.
  induction t as [| e t IH]; [reflexivity |].
  destruct e; cbn; by rewrite ?IH.
Qed.

Lemma opened_names_write_events (t : list event) :
  opened_names (write_events t) = opened_names t.
Proof.
  unfold write_events. induction t as [| e t IH]; [reflexivity |].
  rewrite filter_cons.
  destruct e; cbn [is_write]; destruct (decide _); try discriminate;
    cbn [opened_names]; by rewrite ?IH.
Qed.

Lemma opens_fresh_refl (w : world) : opens_fresh w w.
Proof.
  split; [apply preserved_refl |]. exists [].
  rewrite app_nil_r. split; [reflexivity |]. split; [constructor |].
  intros filename Hin. by apply elem_of_nil in Hin.
Qed.

Lemma opens_fresh_trans (w1 w2 w3 : world) :
  opens_fresh w1 w2 -> opens_fresh w2 w3 -> opens_fresh w1 w3.
Proof.
  intros [Hkept (names & Hnames & Hnodup & Hfresh)]
         [Hkept' (names' & Hnames' & Hnodup' & Hfresh')].
  split; [by eapply preserved_trans |].
  exists (names ++ names').
  split; [by rewrite Hnames', Hnames, <- app_assoc |].
  split.
  - apply NoDup_app. split; [exact Hnodup |]. split; [| exact Hnodup'].
    intros filename Hin Hin'.
    destruct (Hfresh filename Hin) as [_ [content Hthere]].
    destruct (Hfresh' filename Hin') as [Hnot _]. congruence.
  - intros filename Hin. apply elem_of_app in Hin as [Hin | Hin].
    + destruct (Hfresh filename Hin) as [Hnot [content Hthere]].
      split; [exact Hnot |]. exists content.
      by eapply lookup_weaken.
    + destruct (Hfresh' filename Hin) as [Hnot Hthere].
      split; [| exact Hthere].
      destruct (files w1 !! filename) as [content |] eqn:Hlookup;
        [| reflexivity].
      apply (lookup_weaken _ _ _ _ Hlookup) in Hkept. congruence.
Qed.

Lemma untouched_opens_fresh (w w' : world) :
  untouched w w' -> opens_fresh w w'.
Proof.
  intros Hsame. split; [by apply untouched_preserved |].
  destruct Hsame as [_ Hwrites]. exists [].
  rewrite app_nil_r, <- (opened_names_write_events (trace w')), Hwrites,
    opened_names_write_events.
  split; [reflexivity |]. split; [constructor |].
  intros filename Hin. by apply elem_of_nil in Hin.
Qed.

Lemma opens_fresh_created (w : world) (filename : str) :
  path_exists w filename = false -> opens_fresh w (created filename w).
Proof.
  intros Hfound. split; [by apply preserved_created |].
  exists [filename]. cbn [created trace files].
  rewrite opened_names_app. split; [reflexivity |].
  split; [apply NoDup_singleton |].
  intros filename' Hin. apply list_elem_of_singleton in Hin as ->.
  split; [| by rewrite lookup_insert_eq].
  unfold path_exists in Hfound.
  apply orb_false_iff in Hfound as [Hfound _].
  apply orb_false_iff in Hfound as [Hfound _].
  apply bool_decide_eq_false in Hfound.
  destruct (files w !! filename) eqn:Hlookup; [| reflexivity].
  exfalso. apply Hfound. by eexists.
Qed.

(** The guarantee of one download, carried through the fan-out. *)
Lemma download_stage_fresh (env : environment)
    (schedule : list nat) (ids : list pyval) (number : Z) (w : world) :
  opens_fresh w (fst (run (download_all_files env schedule ids number) w)).
Proof.
  unfold download_all_files. rewrite run_bind, run_async_requester.
  assert (Hkeeps : forall w1 w2 filename,
            opens_fresh w1 w2 -> path_exists w1 filename = true ->
            path_exists w2 filename = true).
  { intros w1 w2 filename [Hkept _]. by apply path_exists_preserved. }
  assert (Hall : all_safe opens_fresh (download_post env True)
                   (fun _ => True) w ids (map (download_pdf env) ids)).
  { unfold all_safe. apply Forall2_fmap_r, Forall_Forall2_diag.
    apply Forall_forall. intros id _.
    apply download_pdf_safe;
      eauto using opens_fresh_refl, opens_fresh_trans,
        untouched_opens_fresh.
    intros w1 filename _ _ Hfound.
    destruct (open_refused env filename); [exact I |].
    split; [by apply opens_fresh_created | exact I]. }
  destruct (gather_sound opens_fresh (download_post env True)
              (fun _ => True) opens_fresh_refl opens_fresh_trans
              (fun a r w w' H Hww' =>
                 download_post_stable env opens_fresh Hkeeps True
                   a r w w' H Hww')
              schedule w ids _ Hall) as [Hg _].
  destruct (run (gather schedule (map (download_pdf env) ids)) w)
    as [w1 [rs | e]]; cbn [fst snd run print emit effect] in *;
    [| exact Hg].
  eapply opens_fresh_trans; [exact Hg |].
  by apply untouched_opens_fresh, untouched_logged.
Qed.

(** X7 (lines 51-77 and 93-103).  Whatever the schedule and whatever the
    identifiers, two of which may resolve to one name, a download stage
    opens no file that was there when it began and opens no name twice;
    every file it found is still there with its content, also when the
    stage raises. *)
Theorem download_stage_opens_fresh (env : environment)
    (schedule : list nat) (ids : list pyval) (number : Z) (w : world) :
  opens_fresh w (fst (run (download_all_files env schedule ids number) w)).
Proof. exact (download_stage_fresh env schedule ids number w). Qed.

(** Two identifiers of one name: the file is opened once. *)
Example twins_open_once :
  resolved_name twin_env (PStr (ustr "a")) = Some (ustr "doc.pdf") /\
  resolved_name twin_env (PStr (ustr "b")) = Some (ustr "doc.pdf") /\
  opened_names
    (trace (fst (run (download_all_files twin_env [0; 1; 0; 1; 0; 1]%nat
                        [PStr (ustr "a"); PStr (ustr "b")] 1) fresh)))
    = [ustr "doc.pdf"].
Proof. repeat split; vm_compute; reflexivity. Qed.

(** ** The names of the files *)

Lemma last_quote_bounds (pos : nat) (s : str) (j : nat) :
  last_quote pos s = Some j ->
  (pos <= j < pos + length s)%nat /\ j <> 0%nat /\
  s !! (j - pos)%nat = Some QUOTE.
Proof.
  revert pos. induction s as [| c s IH]; intros pos H; [discriminate |].
  cbn [last_quote] in H.
  destruct (last_quote (S pos) s) as [j' |] eqn:Hlater.
  - injection H as ->. destruct (IH (S pos) Hlater) as (Hj & Hnz & Hq).
    cbn [length]. split; [lia |]. split; [exact Hnz |].
    replace (j - pos)%nat with (S (j - S pos)) by lia. exact Hq.
  - destruct (N.eqb_spec c QUOTE) as [-> | _]; [| discriminate].
    destruct (Nat.eqb_spec pos 0) as [_ | Hpos]; [discriminate |].
    injection H as <-. cbn [length]. split; [lia |].
    split; [exact Hpos |]. by rewrite Nat.sub_diag.
Qed.

Lemma match_filename_group (s group : str) (len : nat) :
  match_filename s = Some (group, len) -> group <> [].
Proof.
  unfold match_filename. destruct (starts_with filename_prefix s);
    [| discriminate].
  destruct (last_quote 0 _) as [j |] eqn:Hquote; [| discriminate].
  intros [= <- _]. destruct (last_quote_bounds _ _ _ Hquote)
    as (Hj & Hnz & _).
  intros Hnil. apply (f_equal length) in Hnil.
  change (length filename_prefix) with 10%nat in *.
  rewrite length_take in Hnil. cbn [length] in Hnil. lia.
Qed.

Lemma findall_group (skip : nat) (s group : str) (rest : list str) :
  findall_from skip s = group :: rest -> group <> [].
Proof.
  revert skip. induction s as [| c s IH]; intros skip H; [discriminate |].
  cbn [findall_from] in H. destruct skip as [| k]; [| by eapply IH].
  destruct (match_filename (c :: s)) as [[g len] |] eqn:Hmatch;
    [| by eapply IH].
  injection H as -> _. by eapply match_filename_group.
Qed.

Lemma unquote_to_bytes_nonempty (s : bytes) :
  s <> [] -> unquote_to_bytes s <> [].
Proof.
  destruct s as [| c rest]; [done |]. intros _. cbn [unquote_to_bytes].
  destruct (c =? PERCENT); [| done].
  destruct rest as [| h [| l rest']]; try done.
  destruct (hexval h), (hexval l); done.
Qed.

Lemma utf8_decode_nonempty (bs : bytes) : bs <> [] -> utf8_decode bs <> [].
Proof.
  destruct bs as [| b0 r0]; [done |]. intros _. cbn [utf8_decode].
  repeat match goal with
         | |- (if ?b then _ else _) <> [] => destruct b
         | |- match ?l with [] => _ | _ :: _ => _ end <> [] => destruct l
         end; done.
Qed.

Lemma ascii_runs_head (s : str) :
  s <> [] ->
  exists b run rest, ascii_runs s = (b, run) :: rest /\ run <> [].
Proof.
  destruct s as [| c s']; [done |]. intros _. cbn [ascii_runs].
  destruct (ascii_runs s') as [| [b run] rest]; [by eexists _, _, _ |].
  destruct (Bool.eqb (c <? 128) b); by eexists _, _, _.
Qed.

Lemma unquote_nonempty (s : str) : s <> [] -> unquote s <> [].
Proof.
  intros Hs. unfold unquote. destruct (existsb _ s); [| exact Hs].
  destruct (ascii_runs_head s Hs) as (b & run & rest & -> & Hrun).
  cbn [map concat fst snd]. intros Hnil.
  apply app_eq_nil in Hnil as [Hnil _]. destruct b.
  - exact (utf8_decode_nonempty _ (unquote_to_bytes_nonempty run Hrun)
             Hnil).
  - contradiction.
Qed.

(** X8 (lines 34-48).  A name that is resolved is never empty, and its
    ASCII characters are letters, digits, underscores, dots and dashes
    only: it has no slash, no backslash and no NUL, so joined to
    [downloads] it names an entry of that directory. *)
Theorem resolved_filename_is_a_plain_name (env : environment)
    (store_uuid : pyval) (name : str) (w w' : world) :
  ascii_faithful (ucd env) ->
  run (get_filename_from_response_headers env store_uuid) w
    = (w', Ok (Some name)) ->
  name <> [] /\
  (forall c, In c name -> c < 128 -> ascii_filename_char c = true) /\
  ~ In 47 name /\ ~ In 92 name /\ ~ In 0 name.
Proof.
  intros Hdb Hrun.
  rewrite get_filename_from_response_headers_eq in Hrun.
  cbn [bind emit effect suspend run] in Hrun.
  injection Hrun as _ Hname. unfold stored_name in Hname.
  destruct (status _ =? 200)%Z; [| discriminate].
  destruct (headers_get _ _) as [cd |]; [| discriminate].
  unfold filename_of_disposition in Hname.
  destruct (negb _ && contains _ cd); [| discriminate].
  destruct (findall_filename cd) as [| group rest] eqn:Hfind;
    [discriminate |].
  injection Hname as <-.
  rewrite (strip_quotes_id _ (sanitize_no_quote _ _ Hdb)).
  assert (Hsafe : forall c, In c (sanitize (ucd env) (unquote group)) ->
                            c < 128 -> ascii_filename_char c = true).
  { intros c Hin Hc. unfold sanitize in Hin.
    apply in_map_iff in Hin as (c0 & Hc0 & _).
    destruct (kept (ucd env) c0) eqn:Hkept; [| by subst c].
    subst c0. by rewrite <- (kept_ascii _ c Hdb Hc). }
  split.
  { intros Hnil. apply (f_equal length) in Hnil.
    unfold sanitize in Hnil. rewrite length_map in Hnil.
    apply (unquote_nonempty group); [by eapply findall_group |].
    by apply length_zero_iff_nil. }
  split; [exact Hsafe |].
  repeat split; intros Hin; by apply Hsafe in Hin.
Qed.

Lemma resolved_filename_is_a_plain_name_witness :
  ascii_faithful (ucd sample_env) /\
  run (get_filename_from_response_headers sample_env (PStr (ustr "s1")))
      fresh
    = (logged fresh [Requested (docstore_url (PStr (ustr "s1")))],
       Ok (Some (ustr "doc.pdf"))) /\
  ustr "doc.pdf" <> [] /\ ~ In 47 (ustr "doc.pdf").
Proof.
  assert (Hrun :
    run (get_filename_from_response_headers sample_env (PStr (ustr "s1")))
        fresh
    = (logged fresh [Requested (docstore_url (PStr (ustr "s1")))],
       Ok (Some (ustr "doc.pdf")))) by reflexivity.
  split; [exact ucd_excerpt_faithful |]. split; [exact Hrun |].
  destruct (resolved_filename_is_a_plain_name sample_env (PStr (ustr "s1"))
              (ustr "doc.pdf") fresh _ ucd_excerpt_faithful Hrun)
    as (Hne & _ & Hslash & _).
  by split.
Defined.

Lemma starts_with_self (p x : str) : starts_with p (p ++ x) = true.
Proof.
  induction p as [| a p IH]; [reflexivity |].
  cbn. by rewrite N.eqb_refl, IH.
Qed.

Lemma starts_with_lookup (p s : str) (i : nat) (c : N) :
  starts_with p s = true -> p !! i = Some c -> s !! i = Some c.
Proof.
  revert s i. induction p as [| a p IH]; intros s i H Hi; [done |].
  destruct s as [| b s]; [discriminate |].
  cbn in H. apply andb_true_iff in H as [Hab Hrest].
  apply N.eqb_eq in Hab as <-.
  destruct i as [| i]; [exact Hi |]. cbn in *. by apply IH.
Qed.

Lemma filename_prefix_quote (i : nat) (c : N) :
  (i < 9)%nat -> filename_prefix !! i = Some c -> c <> QUOTE.
Proof.
  intros Hi. do 9 (destruct i as [| i]; [by intros [= <-] |]). lia.
Qed.

(** No match of the first pattern starts in a text without quotes. *)
Lemma findall_skips_unquoted (pre rest : str) :
  ~ In QUOTE pre ->
  findall_from 0 (pre ++ filename_prefix ++ rest)
    = findall_from 0 (filename_prefix ++ rest).
Proof.
  induction pre as [| c pre IH]; intros Hpre; [reflexivity |].
  cbn [app findall_from].
  assert (Hno : match_filename (c :: pre ++ filename_prefix ++ rest) = None).
  { unfold match_filename.
    destruct (starts_with filename_prefix
                (c :: pre ++ filename_prefix ++ rest)) eqn:Hstart;
      [| reflexivity].
    exfalso.
    pose proof (starts_with_lookup filename_prefix _ 9 QUOTE Hstart eq_refl)
      as Hq.
    change (c :: pre ++ filename_prefix ++ rest)
      with ((c :: pre) ++ filename_prefix ++ rest) in Hq.
    destruct (decide (9 < length (c :: pre))%nat) as [Hlt | Hge].
    - rewrite lookup_app_l in Hq by exact Hlt.
      apply Hpre, list_elem_of_In. by eapply list_elem_of_lookup_2.
    - rewrite lookup_app_r in Hq by lia.
      rewrite lookup_app_l in Hq
        by (change (length filename_prefix) with 10%nat;
            cbn [length] in *; lia).
      eapply (filename_prefix_quote _ QUOTE); [| exact Hq | reflexivity].
      cbn [length] in *. lia. }
  rewrite Hno. apply IH. intros Hin. apply Hpre. by right.
Qed.

Lemma line_of_in (s : str) (c : N) : In c (line_of s) -> In c s.
Proof.
  induction s as [| a s IH]; [done |]. cbn [line_of].
  destruct (a =? NEWLINE); [done |].
  intros [-> | Hin]; [by left | right; by apply IH].
Qed.

Lemma line_of_app (a b : str) :
  ~ In NEWLINE a -> line_of (a ++ b) = a ++ line_of b.
Proof.
  induction a as [| c a IH]; intros Ha; [reflexivity |].
  cbn [app line_of]. destruct (N.eqb_spec c NEWLINE) as [-> | _].
  - exfalso. apply Ha. by left.
  - rewrite IH; [reflexivity |]. intros Hin. apply Ha. by right.
Qed.

Lemma last_quote_none (pos : nat) (s : str) :
  ~ In QUOTE s -> last_quote pos s = None.
Proof.
  revert pos. induction s as [| c s IH]; intros pos Hs; [reflexivity |].
  cbn [last_quote]. rewrite IH by (intros Hin; apply Hs; by right).
  destruct (N.eqb_spec c QUOTE) as [-> | _]; [| reflexivity].
  exfalso. apply Hs. by left.
Qed.

Lemma last_quote_closing (pos : nat) (a b : str) :
  ~ In QUOTE b -> (pos + length a)%nat <> 0%nat ->
  last_quote pos (a ++ QUOTE :: b) = Some (pos + length a)%nat.
Proof.
  revert pos. induction a as [| c a IH]; intros pos Hb Hpos.
  - cbn [app last_quote length]. rewrite (last_quote_none _ b Hb).
    rewrite N.eqb_refl, Nat.add_0_r in *.
    destruct (Nat.eqb_spec pos 0); [contradiction | reflexivity].
  - cbn [app last_quote length]. rewrite (IH (S pos) Hb) by lia.
    f_equal. lia.
Qed.

Lemma ascii_filename_char_plain (c : N) :
  ascii_filename_char c = true ->
  c < 128 /\ c <> PERCENT /\ c <> QUOTE /\ c <> NEWLINE.
Proof.
  unfold ascii_filename_char, ascii_alnum, ascii_digit, ascii_upper,
    ascii_lower, UNDERSCORE, DOT, DASH, PERCENT, QUOTE, NEWLINE.
  intros H.
  repeat match type of H with
         | (_ || _) = true => apply orb_true_iff in H as [H | H]
         | (_ && _) = true =>
           let H1 := fresh in let H2 := fresh in
           apply andb_true_iff in H as [H1 H2];
           apply N.leb_le in H1; apply N.leb_le in H2
         | (_ =? _) = true => apply N.eqb_eq in H
         end; lia.
Qed.

(** X9 (lines 34-48).  A name made of letters, digits, underscores, dots
    and dashes that the service sends between quotes is resolved as it is,
    whatever stands before the parameter and after its closing quote, as
    long as these have no quote of their own. *)
Theorem plain_name_round_trip (db : unicode_db) (pre name tail : str) :
  ascii_faithful db ->
  name <> [] ->
  Forall (fun c => ascii_filename_char c = true) name ->
  ~ In QUOTE pre ->
  ~ In QUOTE tail ->
  filename_of_disposition db
    (pre ++ filename_prefix ++ name ++ [QUOTE] ++ tail)
    = Some name.
Proof.
  intros Hdb Hname Hplain Hpre Htail.
  assert (Hchars : forall c, In c name ->
            c < 128 /\ c <> PERCENT /\ c <> QUOTE /\ c <> NEWLINE).
  { intros c Hin. apply ascii_filename_char_plain.
    by apply (proj1 (Forall_forall _ _) Hplain), list_elem_of_In. }
  assert (Hmatch : match_filename (filename_prefix ++ name ++ [QUOTE] ++ tail)
                   = Some (name, (length filename_prefix + length name + 1)%nat)).
  { unfold match_filename. rewrite starts_with_self, drop_app_length.
    rewrite line_of_app by (intros Hin; by apply Hchars in Hin as (_ & _ & _ & Hn)).
    cbn [app line_of]. change (QUOTE =? NEWLINE) with false. cbn iota.
    rewrite last_quote_closing.
    - cbn [Nat.add]. by rewrite take_app_length.
    - intros Hin. by apply line_of_in in Hin.
    - destruct name; [done | cbn [length]; lia]. }
  assert (Hfind : exists rest,
            findall_filename
              (pre ++ filename_prefix ++ name ++ [QUOTE] ++ tail)
            = name :: rest).
  { unfold findall_filename. rewrite findall_skips_unquoted by exact Hpre.
    change (filename_prefix ++ name ++ [QUOTE] ++ tail)
      with (102 :: drop 1 filename_prefix ++ name ++ [QUOTE] ++ tail)
      in Hmatch |- *.
    cbn [findall_from]. rewrite Hmatch. by eexists. }
  destruct Hfind as [rest Hfind].
  unfold filename_of_disposition. rewrite Hfind.
  rewrite (findall_contains 0 _ name rest Hfind).
  assert (Hunquote : unquote name = name).
  { unfold unquote.
    destruct (existsb (N.eqb PERCENT) name) eqn:Hpercent; [| reflexivity].
    exfalso. apply existsb_exists in Hpercent as (c & Hin & Hc).
    apply N.eqb_eq in Hc as <-.
    by apply Hchars in Hin as (_ & Hp & _). }
  assert (Hsanitize : sanitize db name = name).
  { rewrite sanitize_ascii; [| exact Hdb |].
    - unfold spec_sanitize. clear -Hplain.
      induction Hplain as [| c s Hc _ IH]; [reflexivity |].
      cbn [map]. by rewrite Hc, IH.
    - apply Forall_forall. intros c Hin.
      by apply list_elem_of_In, Hchars in Hin as [Hlt _]. }
  rewrite Hunquote, Hsanitize, strip_quotes_id.
  - destruct (pre ++ filename_prefix ++ name ++ [QUOTE] ++ tail) eqn:Hcd;
      [| reflexivity].
    by apply app_eq_nil in Hcd as [_ Hcd].
  - intros Hin. by apply Hchars in Hin as (_ & _ & Hq & _).
Qed.

Lemma plain_name_round_trip_witness :
  ascii_faithful ucd_excerpt /\
  filename_of_disposition ucd_excerpt
    (ustr "attachment; " ++ filename_prefix ++ ustr "report_2024-01.pdf"
     ++ [QUOTE] ++ ustr "; size=12")
    = Some (ustr "report_2024-01.pdf").
Proof.
  split; [exact ucd_excerpt_faithful |].
  apply (plain_name_round_trip ucd_excerpt (ustr "attachment; ")
           (ustr "report_2024-01.pdf") (ustr "; size=12")
           ucd_excerpt_faithful).
  - discriminate.
  - repeat (constructor; [reflexivity |]). constructor.
  - vm_compute. intuition discriminate.
  - vm_compute. intuition discriminate.
Defined.

(** ** The resolution stage *)

Lemma seg_of_steps {R} (G : world -> world -> Prop) (P : R -> Prop)
    (E : exn -> Prop) (c : coro R) (w : world) :
  steps G c ->
  (forall r, may_return c r -> P r) ->
  (forall e, may_raise c e -> E e) ->
  seg G (fun r _ => P r) E w c.
Proof.
  revert w. induction c as [r | e | f k IH | k IH];
    intros w Hsteps Hret Hexn; cbn in *.
  - by apply Hret.
  - by apply Hexn.
  - destruct (Hsteps w) as [Hstep Hrest]. split; [exact Hstep |].
    apply IH; [exact Hrest | |].
    + intros r Hr. apply Hret. by exists w.
    + intros e He. apply Hexn. by exists w.
  - intros w' _. by apply IH.
Qed.

Lemma extends_refl (P : event -> Prop) (w : world) : extends P w w.
Proof. exists []. by rewrite app_nil_r. Qed.

Lemma extends_trans (P : event -> Prop) (w1 w2 w3 : world) :
  extends P w1 w2 -> extends P w2 w3 -> extends P w1 w3.
Proof.
  intros (es & Hes & HP) (es' & Hes' & HP'). exists (es ++ es').
  split; [by rewrite Hes', Hes, <- app_assoc | by apply Forall_app].
Qed.

Lemma extends_logged (P : event -> Prop) (w : world) (e : event) :
  P e -> extends P w (logged w [e]).
Proof. intros He. exists [e]. split; [reflexivity | by constructor]. Qed.

Lemma reads_only_refl (cs : list pyval) (w : world) : reads_only cs w w.
Proof. split; [by split | apply extends_refl]. Qed.

Lemma reads_only_trans (cs : list pyval) (w1 w2 w3 : world) :
  reads_only cs w1 w2 -> reads_only cs w2 w3 -> reads_only cs w1 w3.
Proof.
  intros [[Hf Hd] He] [[Hf' Hd'] He'].
  split; [split; congruence | by eapply extends_trans].
Qed.

Lemma resolver_steps (env : environment) (cs : list pyval) (c : pyval) :
  In c cs -> steps (reads_only cs) (get_special_project_file_uuid env c).
Proof.
  intros Hc. unfold get_special_project_file_uuid, session_get,
    response_json.
  cbn [bind emit effect suspend steps resp arrive].
  intros w. split.
  { split; [by split |]. apply extends_logged. by exists c. }
  destruct (json (http_get env (special_projects_url c))) as [body | e];
    [| exact I].
  cbn [lift bind steps]. destruct (truthy body); [| exact I].
  destruct (getitem_int body 0) as [first | e]; [| exact I].
  cbn [lift bind try_except].
  by destruct (get_method first (ustr "special_project_uuid")).
Qed.

(** What [get_all_file_uuids] does with the results of its fan-out. *)
Lemma run_get_all_file_uuids (env : environment) (schedule : list nat)
    (claim_uuids : list pyval) (number : Z) (w : world) :
  run (get_all_file_uuids env schedule claim_uuids number) w =
  match run (gather schedule
               (map (get_special_project_file_uuid env) claim_uuids)) w with
  | (w1, Ok responses) =>
    let line := Printed (MsgSuccessfulRequests (length responses)
                           (length claim_uuids) number) in
    match drop_sentinel env responses with
    | Ok file_uuids =>
      (logged w1 [line; Printed (MsgDocuments (length file_uuids) number)],
       Ok file_uuids)
    | Err e => (logged w1 [line], Err e)
    end
  | (w1, Err e) => (w1, Err e)
  end.
Proof.
  unfold get_all_file_uuids. rewrite run_bind, run_async_requester.
  destruct (run (gather schedule _) w) as [w1 [responses | e]];
    [| reflexivity].
  rewrite run_print. unfold drop_sentinel. cbn zeta.
  destruct (list_of_set env responses) as [file_uuids | e];
    [| reflexivity].
  cbn [lift bind result_bind].
  destruct (getitem_int (PList file_uuids) (-1)) as [last | e];
    [| reflexivity].
  cbn [lift bind result_bind run print emit effect].
  by rewrite logged_logged.
Qed.

Lemma resolvers_gathered (env : environment) (schedule : list nat)
    (claim_uuids : list pyval) (w : world) :
  reads_only claim_uuids w
    (fst (run (gather schedule
                 (map (get_special_project_file_uuid env) claim_uuids)) w)) /\
  match snd (run (gather schedule
                    (map (get_special_project_file_uuid env) claim_uuids))
               w) with
  | Ok responses =>
    Forall2 (fun c r => may_return (get_special_project_file_uuid env c) r)
      claim_uuids responses
  | Err _ => True
  end.
Proof.
  pose (Q := fun (c r : pyval) (_ : world) =>
               may_return (get_special_project_file_uuid env c) r).
  assert (Hall : all_safe (reads_only claim_uuids) Q (fun _ => True) w
                   claim_uuids
                   (map (get_special_project_file_uuid env) claim_uuids)).
  { unfold all_safe. apply Forall2_fmap_r, Forall_Forall2_diag.
    apply Forall_forall. intros c Hc w' _.
    apply (seg_of_steps (reads_only claim_uuids)
             (may_return (get_special_project_file_uuid env c))
             (fun _ => True)); [| auto | auto].
    by apply resolver_steps, list_elem_of_In. }
  destruct (gather_sound (reads_only claim_uuids) Q (fun _ => True)
              (reads_only_refl claim_uuids) (reads_only_trans claim_uuids)
              (fun _ _ _ _ H _ => H) schedule w claim_uuids _ Hall)
    as [Hg Hq].
  split; [exact Hg |].
  by destruct (snd (run (gather schedule _) w)).
Qed.

(** X10 (lines 106-135).  Resolving the attachments, under every schedule,
    leaves the download directory as it is and sends requests to the
    resolver endpoint only, for travel sheets of the list.  The line that
    counts the successful requests, when it is printed, shows the number of
    travel sheets twice: a request that fails is never counted, it ends the
    stage.  The second line shows the length of the list that is returned. *)
Theorem resolution_stage_reads_only (env : environment)
    (schedule : list nat) (claim_uuids : list pyval) (number : Z)
    (w : world) :
  let out := run (get_all_file_uuids env schedule claim_uuids number) w in
  let n := length claim_uuids in
  files (fst out) = files w /\
  downloads_dir (fst out) = downloads_dir w /\
  exists requests lines,
    trace (fst out) = trace w ++ requests ++ lines /\
    Forall (resolver_request claim_uuids) requests /\
    match snd out with
    | Ok file_uuids =>
      lines = [Printed (MsgSuccessfulRequests n n number);
               Printed (MsgDocuments (length file_uuids) number)]
    | Err _ =>
      lines = [] \/ lines = [Printed (MsgSuccessfulRequests n n number)]
    end.
Proof.
  cbn zeta. rewrite run_get_all_file_uuids.
  destruct (resolvers_gathered env schedule claim_uuids w)
    as [[[Hfiles Hdir] (requests & Htrace & Hrequests)] Hresponses].
  destruct (run (gather schedule _) w) as [w1 [responses | e]];
    cbn [fst snd] in *.
  - rewrite <- (Forall2_length _ _ _ Hresponses).
    destruct (drop_sentinel env responses) as [file_uuids | e];
      cbn [fst snd logged files downloads_dir trace];
      (split; [exact Hfiles |]); (split; [exact Hdir |]);
      exists requests; eexists; rewrite Htrace, <- app_assoc;
      (split; [reflexivity |]); (split; [exact Hrequests |]);
      [reflexivity | by right].
  - split; [exact Hfiles |]. split; [exact Hdir |].
    exists requests, []. rewrite app_nil_r.
    split; [exact Htrace |]. split; [exact Hrequests | by left].
Qed.

(** ** Deduplication in general *)

Lemma py_eqb_sym (a b : pyval) : py_eqb a b = py_eqb b a.
Proof.
  destruct a, b; cbn; try reflexivity.
  - apply Z.eqb_sym.
  - apply Z.eqb_sym.
  - apply Z.eqb_sym.
  - apply Z.eqb_sym.
  - unfold str_eqb. apply bool_decide_ext. split; congruence.
Qed.

Lemma py_eqb_refl (a : pyval) : hashable a = true -> py_eqb a a = true.
Proof.
  destruct a; cbn; try done; intros _.
  - apply Z.eqb_refl.
  - apply Z.eqb_refl.
  - by apply bool_decide_eq_true.
Qed.

Lemma py_eqb_none (a : pyval) : py_eqb a PNone = true -> a = PNone.
Proof. by destruct a. Qed.

Lemma distinct_in (seen l : list pyval) (x : pyval) :
  In x (distinct seen l) -> In x l.
Proof.
  revert seen. induction l as [| y l IH]; intros seen; [done |].
  cbn [distinct]. destruct (existsb (py_eqb y) seen).
  - intros Hin. right. by eapply IH.
  - intros [-> | Hin]; [by left | right; by eapply IH].
Qed.

Lemma distinct_covers (seen l : list pyval) (y : pyval) :
  forallb hashable l = true -> In y l ->
  (exists s, In s seen /\ py_eqb y s = true) \/
  (exists x, In x (distinct seen l) /\ py_eqb y x = true).
Proof.
  revert seen. induction l as [| z l IH]; intros seen Hhash; [done |].
  cbn [forallb] in Hhash. apply andb_true_iff in Hhash as [Hz Hl].
  cbn [distinct]. intros [-> | Hin].
  - destruct (existsb (py_eqb y) seen) eqn:Hseen.
    + left. apply existsb_exists in Hseen as (s & Hs & Hys). by exists s.
    + right. exists y. split; [by left | by apply py_eqb_refl].
  - destruct (existsb (py_eqb z) seen) eqn:Hseen.
    + by apply IH.
    + destruct (IH (z :: seen) Hl Hin) as [(s & [<- | Hs] & Hys) | (x & Hx & Hyx)].
      * right. exists z. split; [by left | exact Hys].
      * left. by exists s.
      * right. exists x. split; [by right | exact Hyx].
Qed.

Lemma distinct_apart (seen l : list pyval) :
  forallb hashable l = true ->
  (forall x s, In x (distinct seen l) -> In s seen -> py_eqb x s = false) /\
  NoDup (distinct seen l) /\
  (forall x y, In x (distinct seen l) -> In y (distinct seen l) ->
               py_eqb x y = true -> x = y).
Proof.
  revert seen. induction l as [| z l IH]; intros seen Hhash.
  - cbn. split; [done |]. split; [constructor | done].
  - cbn [forallb] in Hhash. apply andb_true_iff in Hhash as [Hz Hl].
    cbn [distinct]. destruct (existsb (py_eqb z) seen) eqn:Hseen;
      [by apply IH |].
    destruct (IH (z :: seen) Hl) as (Hout & Hnodup & Hsame).
    assert (Hz' : forall x, In x (distinct (z :: seen) l) ->
                            py_eqb x z = false).
    { intros x Hx. apply Hout; [exact Hx | by left]. }
    split; [| split].
    + intros x s [<- | Hx] Hs.
      * destruct (py_eqb z s) eqn:Hzs; [| reflexivity].
        assert (existsb (py_eqb z) seen = true)
          by (apply existsb_exists; by exists s).
        congruence.
      * apply Hout; [exact Hx | by right].
    + constructor; [| exact Hnodup].
      intros Hin. apply list_elem_of_In, Hz' in Hin.
      by rewrite py_eqb_refl in Hin.
    + intros x y [<- | Hx] [<- | Hy] Hxy; try reflexivity.
      * rewrite py_eqb_sym, Hz' in Hxy by exact Hy. discriminate.
      * rewrite Hz' in Hxy by exact Hx. discriminate.
      * by apply Hsame.
Qed.

Lemma getitem_last (l : list pyval) (x : pyval) :
  getitem_int (PList l) (-1) = Ok x -> l = removelast l ++ [x].
Proof.
  induction l as [| y l' _] using rev_ind; [discriminate |].
  rewrite removelast_last. cbn [getitem_int].
    rewrite length_app. cbn [length Z.ltb Z.compare].
    replace (Z.of_nat (length l' + 1) + -1)%Z with (Z.of_nat (length l'))
      by lia.
    destruct ((0 <=? Z.of_nat (length l'))
              && (Z.of_nat (length l') <? Z.of_nat (length l' + 1)))%Z;
      [| discriminate].
    rewrite Nat2Z.id, nth_error_app2, Nat.sub_diag by lia.
    cbn. by intros [= ->].
Qed.

Lemma drop_sentinel_distinct (env : environment)
    (responses file_uuids : list pyval) :
  order_faithful env ->
  drop_sentinel env responses = Ok file_uuids ->
  NoDup file_uuids /\
  (forall x y, In x file_uuids -> In y file_uuids ->
               py_eqb x y = true -> x = y) /\
  (forall x, In x file_uuids -> In x responses) /\
  (forall y, In y responses -> y <> PNone ->
             exists x, In x file_uuids /\ py_eqb y x = true).
Proof.
  intros Horder. unfold drop_sentinel, list_of_set.
  destruct (forallb hashable responses) eqn:Hhash; [| discriminate].
  cbn [result_bind].
  pose proof (Horder (distinct [] responses)) as Hperm.
  set (listed := set_order env (distinct [] responses)) in *.
  destruct (getitem_int (PList listed) (-1)) as [last |] eqn:Hlast;
    [| discriminate].
  cbn [result_bind]. intros [= <-].
  destruct (distinct_apart [] responses Hhash) as (_ & Hnodup & Hsame).
  assert (Hin : forall x, In x listed <-> In x (distinct [] responses)).
  { intros x. split; apply Permutation_in; [exact Hperm | by symmetry]. }
  assert (Hnodup' : NoDup listed) by (by rewrite Hperm).
  assert (Hcover : forall y, In y responses ->
                     exists x, In x listed /\ py_eqb y x = true).
  { intros y Hy.
    destruct (distinct_covers [] responses y Hhash Hy)
      as [(s & [] & _) | (x & Hx & Hyx)].
    exists x. split; [by apply Hin | exact Hyx]. }
  destruct (is_none last) eqn:Hnone.
  - apply getitem_last in Hlast. destruct last; try discriminate.
    rewrite Hlast in Hnodup', Hin, Hcover.
    apply NoDup_app in Hnodup' as (Hnodup' & _ & _).
    assert (Hin' : forall x, In x (removelast listed) ->
                             In x (distinct [] responses)).
    { intros x Hx. apply Hin, in_or_app. by left. }
    split; [exact Hnodup' |].
    split; [intros x y Hx Hy; apply Hsame; by apply Hin' |].
    split; [intros x Hx; by eapply distinct_in, Hin' |].
    intros y Hy Hynone. destruct (Hcover y Hy) as (x & Hx & Hyx).
    apply in_app_or in Hx as [Hx | [<- | []]]; [by exists x |].
    by apply py_eqb_none in Hyx.
  - split; [exact Hnodup' |].
    split; [intros x y Hx Hy; apply Hsame; by apply Hin |].
    split; [intros x Hx; by eapply distinct_in, Hin |].
    intros y Hy _. by apply Hcover.
Qed.

(** X11 (lines 122-135).  With a set that lists exactly its elements, the
    list [get_all_file_uuids] returns has no identifier twice, not even as
    values that compare equal; each of its elements is a result of a
    resolver; and every result of a resolver other than [None] is in it. *)
Theorem file_uuids_are_distinct (env : environment) (schedule : list nat)
    (claim_uuids : list pyval) (number : Z) (w w' : world)
    (file_uuids : list pyval) :
  order_faithful env ->
  run (get_all_file_uuids env schedule claim_uuids number) w
    = (w', Ok file_uuids) ->
  exists responses,
    Forall2 (fun c r => may_return (get_special_project_file_uuid env c) r)
      claim_uuids responses /\
    NoDup file_uuids /\
    (forall x y, In x file_uuids -> In y file_uuids ->
                 py_eqb x y = true -> x = y) /\
    (forall x, In x file_uuids -> In x responses) /\
    (forall y, In y responses -> y <> PNone ->
               exists x, In x file_uuids /\ py_eqb y x = true).
Proof.
  intros Horder. rewrite run_get_all_file_uuids.
  destruct (resolvers_gathered env schedule claim_uuids w)
    as [_ Hresponses].
  destruct (run (gather schedule _) w) as [w1 [responses | e]];
    cbn [fst snd] in *; [| discriminate].
  destruct (drop_sentinel env responses) as [l | e] eqn:Hdrop;
    [| discriminate].
  intros [= _ <-]. exists responses.
  split; [exact Hresponses |].
  by apply (drop_sentinel_distinct env).
Qed.

Lemma file_uuids_are_distinct_witness :
  order_faithful sample_env /\
  run (get_all_file_uuids sample_env [2; 0; 1]%nat
         [PStr (ustr "u1"); PStr (ustr "u2"); PStr (ustr "u3")] 1) fresh
    = (fst (run (get_all_file_uuids sample_env [2; 0; 1]%nat
                   [PStr (ustr "u1"); PStr (ustr "u2"); PStr (ustr "u3")] 1)
              fresh),
       Ok [PStr (ustr "p1")]) /\
  NoDup [PStr (ustr "p1")].
Proof.
  assert (Horder : order_faithful sample_env) by (intros l; reflexivity).
  assert (Hrun :
    run (get_all_file_uuids sample_env [2; 0; 1]%nat
           [PStr (ustr "u1"); PStr (ustr "u2"); PStr (ustr "u3")] 1) fresh
    = (fst (run (get_all_file_uuids sample_env [2; 0; 1]%nat
                   [PStr (ustr "u1"); PStr (ustr "u2"); PStr (ustr "u3")] 1)
              fresh),
       Ok [PStr (ustr "p1")])) by (vm_compute; reflexivity).
  split; [exact Horder |]. split; [exact Hrun |].
  destruct (file_uuids_are_distinct sample_env _ _ _ _ _ _ Horder Hrun)
    as (responses & _ & Hnodup & _).
  exact Hnodup.
Defined.

(** ** One account after the other *)

Lemma account_lines_app (t t' : list event) :
  account_lines (t ++ t') = account_lines t ++ account_lines t'.
Proof.
  induction t as [| e t IH]; [reflexivity |].
  cbn [app account_lines]. destruct (is_account_line e); cbn; by rewrite IH.
Qed.

Lemma account_lines_inner (es : list event) :
  Forall inner es -> account_lines es = [].
Proof.
  induction 1 as [| e es He _ IH]; [reflexivity |].
  cbn [account_lines]. by rewrite He.
Qed.

Lemma extends_weaken (P P' : event -> Prop) (w w' : world) :
  (forall e, P e -> P' e) -> extends P w w' -> extends P' w w'.
Proof.
  intros HP (es & Hes & Hall). exists es. split; [exact Hes |].
  eapply Forall_impl; [exact Hall | exact HP].
Qed.

Lemma extends_made_dirs (w : world) : extends inner w (made_dirs w).
Proof. exists [MadeDirs]. split; [reflexivity | by constructor]. Qed.

Lemma extends_created (w : world) (filename : str) :
  extends inner w (created filename w).
Proof. exists [Opened filename]. split; [reflexivity | by constructor]. Qed.

Lemma steps_redirect_lines {R} (hist : list (str * Z)) (k : coro R) :
  steps (extends inner) k ->
  steps (extends inner)
    (bind (fold_right
             (fun redirect rest =>
                print (MsgRedirect (fst redirect) (snd redirect)) ;;; rest)
             (Return tt) hist) (fun _ => k)).
Proof.
  intros Hk. induction hist as [| h hist IH]; [exact Hk |].
  cbn [fold_right bind print emit effect steps]. intros w.
  split; [by apply extends_logged | exact IH].
Qed.

(** The steps of a download print no line that opens or closes an
    account. *)
Lemma download_pdf_steps (env : environment) (file_uuid : pyval) :
  steps (extends inner) (download_pdf env file_uuid).
Proof.
  unfold download_pdf, session_get. cbn zeta.
  cbn [bind emit effect suspend steps resp arrive]. intros w.
  split; [by apply extends_logged |].
  destruct (status (http_get env (download_url file_uuid)) =? 200)%Z.
  - unfold response_json. cbn [bind suspend steps resp arrive].
    destruct (json (http_get env (download_url file_uuid))) as [body | e];
      [| exact I].
    cbn [lift bind].
    destruct (getitem_str body (ustr "store_uuid")) as [store_uuid | e];
      [| exact I].
    cbn [lift bind]. rewrite get_filename_from_response_headers_eq.
    cbn [bind emit effect suspend steps]. intros w1.
    split; [by apply extends_logged |].
    destruct (stored_name env store_uuid) as [filename |]; [| exact I].
    unfold makedirs, inspect, open_wb. cbn [bind effect steps]. intros w2.
    split; [apply extends_made_dirs |]. intros w3.
    split; [apply extends_refl |].
    destruct (path_exists w3 filename).
    + cbn [bind print emit effect steps]. intros w4.
      split; [by apply extends_logged | exact I].
    + destruct (open_refused env filename); [exact I |].
      cbn [effect bind steps]. intros w4. split; [apply extends_created |].
      cbn [copy_chunks content_read suspend bind steps unread drained
             length take Nat.eqb].
      exact I.
  - cbn [bind print emit effect steps]. intros w1.
    split; [by apply extends_logged |].
    unfold info_request_log, response_text.
    cbn [bind suspend steps resp arrive].
    destruct (text (http_get env (download_url file_uuid)));
      [| exact I].
    cbn [lift bind steps resp drained print emit effect]. intros w2.
    split; [by apply extends_logged |].
    by apply steps_redirect_lines.
Qed.

Lemma download_stage_extends (env : environment) (schedule : list nat)
    (ids : list pyval) (number : Z) (w : world) :
  extends inner w (fst (run (download_all_files env schedule ids number) w)).
Proof.
  unfold download_all_files. rewrite run_bind, run_async_requester.
  assert (Hall : all_safe (extends inner) (fun _ _ _ => True)
                   (fun _ => True) w ids (map (download_pdf env) ids)).
  { unfold all_safe. apply Forall2_fmap_r, Forall_Forall2_diag.
    apply Forall_forall. intros id _ w' _.
    apply (seg_of_steps (extends inner) (fun _ => True) (fun _ => True));
      [apply download_pdf_steps | auto | auto]. }
  destruct (gather_sound (extends inner) (fun _ _ _ => True)
              (fun _ => True) (extends_refl inner) (extends_trans inner)
              (fun _ _ _ _ H _ => H) schedule w ids _ Hall) as [Hg _].
  destruct (run (gather schedule _) w) as [w1 [rs | e]];
    cbn [fst snd run print emit effect] in *; [| exact Hg].
  eapply extends_trans; [exact Hg |]. by apply extends_logged.
Qed.

Lemma resolution_stage_extends (env : environment) (schedule : list nat)
    (claim_uuids : list pyval) (number : Z) (w : world) :
  extends inner w
    (fst (run (get_all_file_uuids env schedule claim_uuids number) w)).
Proof.
  rewrite run_get_all_file_uuids.
  destruct (resolvers_gathered env schedule claim_uuids w)
    as [[_ Hrequests] _].
  apply (extends_weaken _ inner) in Hrequests;
    [| by intros e (c & _ & ->)].
  destruct (run (gather schedule _) w) as [w1 [responses | e]];
    cbn [fst snd] in *; [| exact Hrequests].
  eapply extends_trans; [exact Hrequests |].
  destruct (drop_sentinel env responses); cbn [fst].
  - exists [Printed (MsgSuccessfulRequests (length responses)
                       (length claim_uuids) number);
            Printed (MsgDocuments (length a) number)].
    split; [reflexivity | by repeat constructor].
  - by apply extends_logged.
Qed.

Lemma extends_diagnostics (env : environment) (u : url) (r : response)
    (body : str) (w : world) :
  extends inner w (logged w (diagnostic_lines env u r body)).
Proof.
  eexists. split; [reflexivity |]. unfold diagnostic_lines, redirect_lines.
  constructor; [reflexivity |].
  induction (history r) as [| h hist IH]; by constructor.
Qed.

Lemma listing_extends (env : environment) (depth : nat) (number limit : Z)
    (w : world) :
  extends inner w
    (fst (run (get_all_travel_sheets_uuids env depth number limit) w)).
Proof.
  revert number limit w.
  induction depth as [| depth IH]; intros number limit w;
    [apply extends_refl |].
  rewrite get_all_travel_sheets_uuids_step. cbn zeta.
  assert (Hfirst : extends inner w (logged w [Requested (claims_url limit)]))
    by (by apply extends_logged).
  destruct (json (http_get env (claims_url limit))) as [body | e].
  2:{ destruct e; cbn [fst]; try exact Hfirst.
      destruct (text _); cbn [fst]; [| exact Hfirst].
      eapply extends_trans; [exact Hfirst | apply extends_diagnostics]. }
  destruct (getitem_str body (ustr "data")) as [travel_sheets | e];
    [| exact Hfirst].
  destruct (py_len travel_sheets) as [n | e]; [| exact Hfirst].
  destruct (n =? limit)%Z.
  - eapply extends_trans; [exact Hfirst | apply IH].
  - destruct (result_bind _ _) as [uuids | e]; cbn [fst]; [| exact Hfirst].
    eapply extends_trans; [exact Hfirst | by apply extends_logged].
Qed.

(** The stages between the two lines of an account. *)
Lemma start_parser_stages (env : environment) (depth : nat)
    (schedule1 schedule2 : list nat) (number : Z) (w : world) :
  let out := run (start_parser env depth schedule1 schedule2 number) w in
  exists w',
    extends inner (logged w [Printed (MsgStart number)]) w' /\
    fst out = match snd out with
              | Ok _ => logged w' [Printed (MsgFinish number)]
              | Err _ => w'
              end.
Proof.
  cbn zeta. unfold start_parser. rewrite run_print, run_bind.
  pose proof (listing_extends env depth number 1000
                (logged w [Printed (MsgStart number)])) as H1.
  destruct (run (get_all_travel_sheets_uuids env depth number 1000) _)
    as [w1 [uuids | e]]; cbn [fst snd] in *; [| by exists w1].
  rewrite run_bind.
  pose proof (resolution_stage_extends env schedule1 uuids number w1) as H2.
  pose proof (extends_trans _ _ _ _ H1 H2) as H12. clear H1 H2.
  destruct (run (get_all_file_uuids env schedule1 uuids number) w1)
    as [w2 [file_uuids | e]]; cbn [fst snd] in *; [| by exists w2].
  rewrite run_bind.
  pose proof (download_stage_extends env schedule2 file_uuids number w2)
    as H3.
  pose proof (extends_trans _ _ _ _ H12 H3) as H. clear H12 H3.
  destruct (run (download_all_files env schedule2 file_uuids number) w2)
    as [w3 [[] | e]]; cbn [fst snd run print emit effect] in *;
    by exists w3.
Qed.

(** X12 (lines 162-171).  Whatever the service answers, the work on an
    account adds to the output the line that opens the account, then only
    lines that neither open nor close an account, and at the end the line
    that closes it exactly when the work returns; when a stage raises, the
    closing line is missing. *)
Theorem start_parser_frames_the_account (env : environment) (depth : nat)
    (schedule1 schedule2 : list nat) (number : Z) (w : world) :
  let out := run (start_parser env depth schedule1 schedule2 number) w in
  exists es,
    Forall inner es /\
    trace (fst out) =
      trace w ++ Printed (MsgStart number) :: es ++
        match snd out with
        | Ok _ => [Printed (MsgFinish number)]
        | Err _ => []
        end.
Proof.
  cbn zeta.
  destruct (start_parser_stages env depth schedule1 schedule2 number w)
    as (w' & (es & Hes & Hall) & Hout).
  exists es. split; [exact Hall |]. rewrite Hout.
  destruct (snd _); cbn [logged trace] in *; rewrite Hes.
  - by rewrite <- !app_assoc.
  - by rewrite <- app_assoc, app_nil_r.
Qed.

Lemma start_parser_account_lines (env : environment) (depth : nat)
    (schedule1 schedule2 : list nat) (number : Z) (w : world) :
  let out := run (start_parser env depth schedule1 schedule2 number) w in
  account_lines (trace (fst out)) =
    account_lines (trace w) ++ Printed (MsgStart number) ::
      match snd out with
      | Ok _ => [Printed (MsgFinish number)]
      | Err _ => []
      end.
Proof.
  cbn zeta.
  destruct (start_parser_stages env depth schedule1 schedule2 number w)
    as (w' & (es & Hes & Hall) & Hout).
  rewrite Hout.
  destruct (snd _); cbn [logged trace] in *; rewrite Hes;
    rewrite !account_lines_app, (account_lines_inner es Hall);
    cbn [account_lines is_account_line app];
    by rewrite <- ?app_assoc, ?app_nil_r.
Qed.

(** The loop over the accounts, from any number on. *)
Lemma main_from_account_lines (session : str -> environment) (depth : nat)
    (schedules : Z -> list nat * list nat) (kgws_lkp_list : list str) :
  forall (number : Z) (w : world),
    let out := run (main_from session depth schedules number kgws_lkp_list)
                 w in
    match snd out with
    | Ok _ =>
      account_lines (trace (fst out)) =
        account_lines (trace w)
        ++ account_frames number (length kgws_lkp_list)
    | Err _ =>
      exists k, (k < length kgws_lkp_list)%nat /\
        account_lines (trace (fst out)) =
          account_lines (trace w) ++ account_frames number k
          ++ [Printed (MsgStart (number + Z.of_nat k))]
    end.
Proof.
  induction kgws_lkp_list as [| kgws_lkp rest IH]; intros number w;
    cbn zeta.
  - cbn [main_from run fst snd length account_frames].
    by rewrite app_nil_r.
  - cbn [main_from]. rewrite run_bind.
    pose proof (start_parser_account_lines
                  (session (ustr "kgws_lkp=" ++ kgws_lkp)) depth
                  (fst (schedules number)) (snd (schedules number))
                  number w) as Hone.
    cbn zeta in Hone.
    destruct (run (start_parser _ _ _ _ _) w) as [w1 [[] | e]];
      cbn [fst snd] in *.
    + specialize (IH (number + 1)%Z w1). cbn zeta in IH.
      destruct (snd (run (main_from _ _ _ _ rest) w1)).
      * rewrite IH, Hone. cbn [length account_frames].
        by rewrite <- app_assoc.
      * destruct IH as (k & Hk & IH). exists (S k).
        split; [cbn [length]; lia |].
        rewrite IH, Hone. cbn [account_frames].
        rewrite <- app_assoc. cbn [app].
        by replace (number + Z.of_nat (S k))%Z
          with (number + 1 + Z.of_nat k)%Z by lia.
    + exists 0%nat. split; [cbn [length]; lia |].
      rewrite Hone. cbn [account_frames app Z.of_nat].
      by rewrite Z.add_0_r.
Qed.

(** X13 (lines 174-179).  The accounts are worked on one after the other
    and numbered from 1: the lines that open and close accounts come in
    pairs, in the order of the credentials.  When the work on an account
    raises, the run ends there: its closing line is missing and no later
    account is opened. *)
Theorem accounts_run_one_after_the_other (session : str -> environment)
    (depth : nat) (schedules : Z -> list nat * list nat)
    (kgws_lkp_list : list str) (w : world) :
  let out := run (main session depth schedules kgws_lkp_list) w in
  match snd out with
  | Ok _ =>
    account_lines (trace (fst out)) =
      account_lines (trace w) ++ account_frames 1 (length kgws_lkp_list)
  | Err _ =>
    exists k, (k < length kgws_lkp_list)%nat /\
      account_lines (trace (fst out)) =
        account_lines (trace w) ++ account_frames 1 k
        ++ [Printed (MsgStart (1 + Z.of_nat k))]
  end.
Proof.
  unfold main.
  exact (main_from_account_lines session depth schedules kgws_lkp_list 1 w).
Qed.

(** The Err branch is taken: the second of three accounts meets the login
    page, and the third is never opened. *)
Example second_account_stops_the_run :
  let out := run (main sample_session 5 (fun _ => ([0; 1; 2]%nat, [0]%nat))
                 [ustr "good"; ustr "bad"; ustr "good"]) fresh in
  account_lines (trace (fst out)) =
    account_frames 1 1 ++ [Printed (MsgStart 2)] /\
  snd out = Err UnboundLocalError.
Proof. by vm_compute. Qed.

(** ** The configured credentials *)

Lemma split_from_tokens (isspace : N -> bool) (s current : str) :
  Forall (fun c => isspace c = false) current ->
  Forall (fun token => token <> [] /\
                       Forall (fun c => isspace c = false) token)
         (split_from isspace current s) /\
  concat (split_from isspace current s) =
    current ++ filter (fun c => isspace c = false) s.
Proof.
  revert current. induction s as [| c s IH]; intros current Hcurrent.
  - cbn [split_from]. rewrite filter_nil, app_nil_r.
    destruct current as [| c0 current]; [by split |].
    split; [| cbn [concat]; by rewrite app_nil_r].
    constructor; [by split | constructor].
  - cbn [split_from]. destruct (isspace c) eqn:Hc.
    + rewrite filter_cons_False by (by rewrite Hc).
      destruct (IH [] (Forall_nil_2 _)) as [Htokens Hconcat].
      destruct current as [| c0 current]; [by split |].
      split; [constructor; [by split | exact Htokens] |].
      cbn [concat]. by rewrite Hconcat.
    + rewrite filter_cons_True by exact Hc.
      destruct (IH (current ++ [c])) as [Htokens Hconcat].
      { apply Forall_app. split; [exact Hcurrent | by repeat constructor]. }
      split; [exact Htokens |]. by rewrite Hconcat, <- app_assoc.
Qed.

Lemma split_blank (isspace : N -> bool) (s : str) :
  Forall (fun c => isspace c = true) s -> split isspace s = [].
Proof.
  unfold split. induction 1 as [| c s Hc _ IH]; [reflexivity |].
  cbn [split_from]. by rewrite Hc.
Qed.

(** X14 (lines 182-185).  Whatever counts as whitespace, the credentials
    read from the configuration value are its characters that are not
    whitespace, in their order, cut into pieces none of which is empty or
    contains whitespace; a value that is not set gives no credential. *)
Theorem credentials_are_tokens (isspace : N -> bool) (getenv : option str) :
  let kgws_lkp_list := KGWS_LKP_LIST isspace getenv in
  Forall (fun token => token <> [] /\
                       Forall (fun c => isspace c = false) token)
         kgws_lkp_list /\
  concat kgws_lkp_list =
    filter (fun c => isspace c = false) (default [] getenv).
Proof.
  cbn zeta. unfold KGWS_LKP_LIST, split.
  exact (split_from_tokens isspace (default [] getenv) [] (Forall_nil_2 _)).
Qed.

(** X15 (lines 174-185).  When the configuration value is not set, or is
    made of whitespace only, the program does nothing at all: no account
    is opened, nothing is requested, printed or written, and it ends
    without an error. *)
Theorem blank_configuration_does_nothing (session : str -> environment)
    (depth : nat) (schedules : Z -> list nat * list nat)
    (isspace : N -> bool) (getenv : option str) (w : world) :
  Forall (fun c => isspace c = true) (default [] getenv) ->
  run (entry_point session depth schedules isspace getenv) w = (w, Ok tt).
Proof.
  intros Hblank. unfold entry_point, KGWS_LKP_LIST.
  by rewrite (split_blank isspace _ Hblank).
Qed.

Lemma blank_configuration_does_nothing_witness :
  Forall (fun c => ascii_space c = true) (default [] (Some (ustr "  "))) /\
  run (entry_point sample_session 5 (fun _ => ([], []))
         ascii_space (Some (ustr "  "))) fresh = (fresh, Ok tt).
Proof.
  assert (H : Forall (fun c => ascii_space c = true)
                (default [] (Some (ustr "  "))))
    by (by repeat constructor).
  split; [exact H |].
  exact (blank_configuration_does_nothing sample_session 5
           (fun _ => ([], [])) ascii_space (Some (ustr "  ")) fresh H).
Defined.

(** ** The files over a whole run *)

Lemma untouched_diagnostics (env : environment) (u : url) (r : response)
    (body : str) (w : world) :
  untouched w (logged w (diagnostic_lines env u r body)).
Proof.
  split; [reflexivity |]. cbn [logged trace]. rewrite write_events_app.
  unfold diagnostic_lines, redirect_lines.
  replace (write_events (_ :: _)) with (@nil event); [by rewrite app_nil_r |].
  unfold write_events. rewrite filter_cons_False by (cbn; discriminate).
  induction (history r) as [| h hist IH]; [reflexivity |].
  cbn [map]. by rewrite filter_cons_False by (cbn; discriminate).
Qed.

Lemma listing_untouched (env : environment) (depth : nat) (number limit : Z)
    (w : world) :
  untouched w
    (fst (run (get_all_travel_sheets_uuids env depth number limit) w)).
Proof.
  revert number limit w.
  induction depth as [| depth IH]; intros number limit w;
    [apply untouched_refl |].
  rewrite get_all_travel_sheets_uuids_step. cbn zeta.
  assert (Hfirst : untouched w (logged w [Requested (claims_url limit)]))
    by (by apply untouched_logged).
  destruct (json (http_get env (claims_url limit))) as [body | e].
  2:{ destruct e; cbn [fst]; try exact Hfirst.
      destruct (text _); cbn [fst]; [| exact Hfirst].
      eapply untouched_trans; [exact Hfirst | apply untouched_diagnostics]. }
  destruct (getitem_str body (ustr "data")) as [travel_sheets | e];
    [| exact Hfirst].
  destruct (py_len travel_sheets) as [n | e]; [| exact Hfirst].
  destruct (n =? limit)%Z.
  - eapply untouched_trans; [exact Hfirst | apply IH].
  - destruct (result_bind _ _) as [uuids | e]; cbn [fst]; [| exact Hfirst].
    eapply untouched_trans; [exact Hfirst | by apply untouched_logged].
Qed.

Lemma reads_only_untouched (claim_uuids : list pyval) (w w' : world) :
  reads_only claim_uuids w w' -> untouched w w'.
Proof.
  intros [[Hfiles _] (es & Hes & Hall)]. split; [exact Hfiles |].
  rewrite Hes, write_events_app.
  replace (write_events es) with (@nil event); [by rewrite app_nil_r |].
  clear Hes. unfold write_events.
  induction Hall as [| e es (c & _ & ->) _ IH]; [reflexivity |].
  rewrite filter_cons_False by (cbn; discriminate). exact IH.
Qed.

Lemma resolution_stage_untouched (env : environment) (schedule : list nat)
    (claim_uuids : list pyval) (number : Z) (w : world) :
  untouched w
    (fst (run (get_all_file_uuids env schedule claim_uuids number) w)).
Proof.
  rewrite run_get_all_file_uuids.
  destruct (resolvers_gathered env schedule claim_uuids w) as [Hreads _].
  apply reads_only_untouched in Hreads.
  destruct (run (gather schedule _) w) as [w1 [responses | e]];
    cbn [fst snd] in *; [| exact Hreads].
  eapply untouched_trans; [exact Hreads |].
  destruct (drop_sentinel env responses); cbn [fst].
  - change [?a; ?b] with ([a] ++ [b]). rewrite <- logged_logged.
    eapply untouched_trans; by apply untouched_logged.
  - by apply untouched_logged.
Qed.

Lemma start_parser_fresh (env : environment) (depth : nat)
    (schedule1 schedule2 : list nat) (number : Z) (w : world) :
  opens_fresh w
    (fst (run (start_parser env depth schedule1 schedule2 number) w)).
Proof.
  unfold start_parser. rewrite run_print, run_bind.
  assert (H0 : untouched w (logged w [Printed (MsgStart number)]))
    by (by apply untouched_logged).
  pose proof (untouched_trans _ _ _ H0
                (listing_untouched env depth number 1000 _)) as H1.
  clear H0.
  destruct (run (get_all_travel_sheets_uuids env depth number 1000) _)
    as [w1 [uuids | e]]; cbn [fst snd] in *;
    [| by apply untouched_opens_fresh].
  rewrite run_bind.
  pose proof (untouched_trans _ _ _ H1
                (resolution_stage_untouched env schedule1 uuids number w1))
    as H2.
  clear H1.
  destruct (run (get_all_file_uuids env schedule1 uuids number) w1)
    as [w2 [file_uuids | e]]; cbn [fst snd] in *;
    [| by apply untouched_opens_fresh].
  rewrite run_bind.
  pose proof (opens_fresh_trans _ _ _ (untouched_opens_fresh _ _ H2)
                (download_stage_fresh env schedule2 file_uuids number w2))
    as H3.
  clear H2.
  destruct (run (download_all_files env schedule2 file_uuids number) w2)
    as [w3 [[] | e]]; cbn [fst snd run print emit effect] in *;
    [| exact H3].
  eapply opens_fresh_trans; [exact H3 |].
  by apply untouched_opens_fresh, untouched_logged.
Qed.

Lemma main_from_fresh (session : str -> environment) (depth : nat)
    (schedules : Z -> list nat * list nat) (kgws_lkp_list : list str) :
  forall (number : Z) (w : world),
    opens_fresh w
      (fst (run (main_from session depth schedules number kgws_lkp_list) w)).
Proof.
  induction kgws_lkp_list as [| kgws_lkp rest IH]; intros number w.
  - apply opens_fresh_refl.
  - cbn [main_from]. rewrite run_bind.
    pose proof (start_parser_fresh
                  (session (ustr "kgws_lkp=" ++ kgws_lkp)) depth
                  (fst (schedules number)) (snd (schedules number))
                  number w) as Hone.
    destruct (run (start_parser _ _ _ _ _) w) as [w1 [[] | e]];
      cbn [fst snd] in *; [| exact Hone].
    eapply opens_fresh_trans; [exact Hone | apply IH].
Qed.

(** X16 (lines 51-77 and 162-185).  Over a whole run, whatever the
    credentials, the service and the schedules, and also when the run ends
    with an exception: every file that was in the download directory when
    the run began is still there with its content, every file the run
    opens was not there before, and no name is opened twice, not even by
    two accounts. *)
Theorem run_keeps_the_files (session : str -> environment) (depth : nat)
    (schedules : Z -> list nat * list nat) (isspace : N -> bool)
    (getenv : option str) (w : world) :
  let w' := fst (run (entry_point session depth schedules isspace getenv)
                   w) in
  (forall filename content,
     files w !! filename = Some content ->
     files w' !! filename = Some content) /\
  exists names,
    opened_names (trace w') = opened_names (trace w) ++ names /\
    NoDup names /\
    forall filename,
      filename ∈ names ->
      files w !! filename = None /\ is_Some (files w' !! filename).
Proof.
  cbn zeta. unfold entry_point, main.
  destruct (main_from_fresh session depth schedules
              (KGWS_LKP_LIST isspace getenv) 1 w) as [Hkept Hnames].
  split; [| exact Hnames].
  intros filename content Hfile.
  by eapply lookup_weaken.
Qed.
